(** * Brokex hourly analyzer ([index.js]): indicators, signal scorer,
      multi-timeframe aggregator, live price cache and outcome verifier.

    The JavaScript source computes on IEEE-754 doubles.  The embedding is
    written once against an interface of number operations ([JSNumber]) and
    is then read at two instances:

    - [float] (the kernel's binary64 floats): bit-exact JavaScript numbers,
      with NaN, the infinities and the two zeros.  Everything about the
      scorer, the aggregator, the cache and the outcome check is proved at
      this instance;
    - [xnum]: exact rationals extended with NaN and the infinities, that is
      doubles without rounding and without overflow.  It carries the one
      result that is a statement of real arithmetic (the range of RSI). *)

From Stdlib Require Import String Ascii.
From Stdlib Require Import ZArith QArith Qabs Qround List Bool Lia Lqa.
From Stdlib Require Import Permutation.
From Stdlib Require Import Uint63 Floats.
Import ListNotations.

Set Implicit Arguments.

(** ** JavaScript values *)

(** A slot that holds a number, [null] or [undefined]. *)
Inductive jsval (num : Type) : Type :=
| JUndefined
| JNull
| JNum (x : num).
Arguments JUndefined {num}.
Arguments JNull {num}.
Arguments JNum {num} x.

(** The operations of the Number type that the program uses. *)
Class JSNumber (num : Type) : Type := {
  of_Z : Z -> num;                  (* an integer literal or count *)
  nadd : num -> num -> num;
  nsub : num -> num -> num;
  nmul : num -> num -> num;
  ndiv : num -> num -> num;
  nopp : num -> num;
  nabs : num -> num;                (* Math.abs *)
  neqb : num -> num -> bool;        (* x === y on numbers *)
  nltb : num -> num -> bool;        (* x < y *)
  nleb : num -> num -> bool;        (* x <= y *)
  toFixed : nat -> num -> num       (* +x.toFixed(d) *)
}.

(** [Math.sqrt], kept apart: the exact instance has no square root. *)
Class JSSqrt (num : Type) : Type := { nsqrt : num -> num }.

Declare Scope js_scope.
Delimit Scope js_scope with js.
Notation "x + y" := (nadd x y) : js_scope.
Notation "x - y" := (nsub x y) : js_scope.
Notation "x * y" := (nmul x y) : js_scope.
Notation "x / y" := (ndiv x y) : js_scope.
Notation "- x" := (nopp x) : js_scope.
Notation "x === y" := (neqb x y) (at level 70, no associativity) : js_scope.
Notation "x <? y" := (nltb x y) : js_scope.
Notation "x <=? y" := (nleb x y) : js_scope.
Notation "x >? y" := (nltb y x) : js_scope.
Notation "x >=? y" := (nleb y x) : js_scope.

(** *** Instance 1: binary64 *)

Module F64.

Definition f_of_Z (z : Z) : float :=
  match z with
  | Z0 => PrimFloat.zero
  | Zpos _ => PrimFloat.of_uint63 (Uint63.of_Z z)
  | Zneg p => PrimFloat.opp (PrimFloat.of_uint63 (Uint63.of_Z (Zpos p)))
  end.

(** [+x.toFixed(d)].  [toFixed] picks the integer [n] for which [n / 10^d]
    is nearest to the exact value of [|x|] (the larger one on a tie), prints
    it with the sign of [x], and unary [+] reads the decimal back as the
    nearest double, which is what the correctly rounded quotient of [n] by
    [10^d] is while [n < 2^53].  Above that the doubles are further apart
    than [10^-d] and the text reads back as [x] itself.  NaN and the
    infinities print as their names and read back unchanged. *)
Definition f_toFixed (d : nat) (x : float) : float :=
  match Prim2SF x with
  | S754_zero _ => PrimFloat.zero
  | S754_finite s m e =>
      let scale := (10 ^ Z.of_nat d)%Z in
      let n := if (0 <=? e)%Z
               then (Zpos m * 2 ^ e * scale)%Z
               else ((2 * Zpos m * scale + 2 ^ (- e)) / 2 ^ (- e + 1))%Z in
      if (n <? 2 ^ 53)%Z
      then let r := PrimFloat.div (f_of_Z n) (f_of_Z scale) in
           if s then PrimFloat.opp r else r
      else x
  | _ => x
  end.

#[export] Instance float_number : JSNumber float := {|
  of_Z := f_of_Z;
  nadd := PrimFloat.add;
  nsub := PrimFloat.sub;
  nmul := PrimFloat.mul;
  ndiv := PrimFloat.div;
  nopp := PrimFloat.opp;
  nabs := PrimFloat.abs;
  neqb := PrimFloat.eqb;
  nltb := PrimFloat.ltb;
  nleb := PrimFloat.leb;
  toFixed := f_toFixed
|}.

#[export] Instance float_sqrt : JSSqrt float := {| nsqrt := PrimFloat.sqrt |}.

(** The exact value of a finite double. *)
Definition to_Q (x : float) : Q :=
  match Prim2SF x with
  | S754_finite s m e =>
      let v := if (0 <=? e)%Z then inject_Z (Zpos m * 2 ^ e)
               else Qmake (Zpos m) (Z.to_pos (2 ^ (- e))) in
      if s then Qopp v else v
  | _ => 0%Q
  end.

End F64.
Export F64.

(** *** Instance 2: exact extended rationals *)


Module Exact.















End Exact.
Export Exact.

(** ** Array and coercion helpers *)

Section Arrays.
Context {A : Type}.

(** [arr.slice(a, b)] for [0 <= a]. *)
Definition slice (a b : nat) (l : list A) : list A := firstn (b - a) (skipn a l).

(** [arr.slice(-p)]; [slice(-0)] is the whole array. *)
Definition slice_last (p : nat) (l : list A) : list A :=
  match p with
  | O => l
  | _ => skipn (length l - p) l
  end.

(** [for (let i = lo; i < hi; i++) acc = body(acc, i)]. *)
Definition for_range (lo hi : nat) {S : Type} (body : S -> nat -> S) (init : S) : S :=
  fold_left body (seq lo (hi - lo)) init.

(** [arr.map((v, i) => f(v, i))]. *)
Fixpoint mapi_from (i : nat) {B : Type} (f : A -> nat -> B) (l : list A) : list B :=
  match l with
  | [] => []
  | v :: l' => f v i :: mapi_from (S i) f l'
  end.
Definition mapi {B : Type} (f : A -> nat -> B) (l : list A) : list B := mapi_from 0 f l.
End Arrays.

Section Numbers.
Context {num : Type} `{JSNumber num}.
Local Open Scope js_scope.

Definition of_nat (n : nat) : num := of_Z (Z.of_nat n).
(** A decimal literal [a / 10^k] is the double nearest to that quotient. *)
Definition dec (a : Z) (k : nat) : num := of_Z a / of_Z (10 ^ Z.of_nat k).

Definition NaN : num := of_Z 0 / of_Z 0.
Definition Infinity : num := of_Z 1 / of_Z 0.
Definition is_nan (x : num) : bool := negb (x === x).
(** [Number.isFinite] on a number. *)
Definition isFinite (x : num) : bool :=
  negb (is_nan x) && negb (nabs x === Infinity).

(** ToNumber on a number, [null] or [undefined]. *)
Definition toNumber (v : jsval num) : num :=
  match v with
  | JUndefined => NaN
  | JNull => of_Z 0
  | JNum x => x
  end.

(** Truthiness of such a slot: a number other than 0 and NaN. *)
Definition truthy (v : jsval num) : bool :=
  match v with
  | JNum x => negb (x === of_Z 0) && negb (is_nan x)
  | _ => false
  end.

(** [v != null] (loose: [undefined] is equal to [null]). *)
Definition not_null (v : jsval num) : bool :=
  match v with
  | JNum _ => true
  | _ => false
  end.

(** [v ?? null]. *)
Definition or_null (v : jsval num) : jsval num :=
  match v with
  | JUndefined => JNull
  | _ => v
  end.

(** [arr[i]] read as a number: out of range is [undefined], NaN in
    arithmetic. *)
Definition get (arr : list num) (i : nat) : num := nth i arr NaN.

(** [arr.at(-1)] and [arr.at(-2)]. *)
Definition at_last (arr : list num) : jsval num :=
  match rev arr with
  | x :: _ => JNum x
  | [] => JUndefined
  end.
Definition at_prev (arr : list num) : jsval num :=
  match rev arr with
  | _ :: y :: _ => JNum y
  | _ => JUndefined
  end.

(** [Math.max] and [Math.min] of two numbers, with NaN and signed zeros. *)
Definition max2 (a b : num) : num :=
  if is_nan a || is_nan b then NaN
  else if a <? b then b
  else if b <? a then a
  else if a === of_Z 0 then a + b else a.
Definition min2 (a b : num) : num :=
  if is_nan a || is_nan b then NaN
  else if a <? b then a
  else if b <? a then b
  else if a === of_Z 0 then - (- a + - b) else a.
(** [Math.max(...xs)] and [Math.min(...xs)]. *)
Definition Math_max (xs : list num) : num := fold_left max2 xs (- Infinity).
Definition Math_min (xs : list num) : num := fold_left min2 xs Infinity.

(** [Math.sign]. *)
Definition Math_sign (x : num) : num :=
  if x >? of_Z 0 then of_Z 1
  else if x <? of_Z 0 then of_Z (-1)
  else x.

(** [arr.reduce((a, b) => a + b, 0)]. *)
Definition sum (arr : list num) : num := fold_left nadd arr (of_Z 0).
End Numbers.

(** ** Indicators

    Periods are natural numbers, as every call site passes them (14, 12,
    26, 9, 20, 3, 50, 200); an index [p - 1] is the one of the source for
    [p >= 1].  Each function returns [null] ([JNull], or [None] for an
    object) before anything else when its input is too short. *)

Section Indicators.
Context {num : Type} `{JSNumber num}.
Local Open Scope js_scope.

Definition SMA (arr : list num) (p : nat) : jsval num :=
  if (length arr <? p)%nat then JNull
  else
    let s := for_range (length arr - p) (length arr)
               (fun s i => s + get arr i) (of_Z 0) in
    JNum (s / of_nat p).

Definition EMA (arr : list num) (p : nat) : jsval num :=
  if (length arr <? p)%nat then JNull
  else
    let k := of_Z 2 / of_nat (p + 1) in
    let emaPrev := toNumber (SMA (slice 0 p arr) p) in
    JNum (for_range p (length arr)
            (fun emaPrev i => get arr i * k + emaPrev * (of_Z 1 - k)) emaPrev).

(** [(b - mean) ** 2] is read as the product [(b - mean) * (b - mean)]. *)
Definition stddev `{JSSqrt num} (arr : list num) (p : nat) : jsval num :=
  if (length arr <? p)%nat then JNull
  else
    let slice := slice_last p arr in
    let mean := sum slice / of_nat p in
    let variance :=
      fold_left (fun a b => a + (b - mean) * (b - mean)) slice (of_Z 0) / of_nat p in
    JNum (nsqrt variance).

(** The two Wilder averages [(avgGain, avgLoss)] of [RSI] after its loops. *)
Definition RSI_averages (closes : list num) (p : nat) : num * num :=
  let '(gains, losses) :=
    for_range 1 (p + 1)
      (fun '(gains, losses) i =>
         let diff := get closes i - get closes (i - 1) in
         if diff >=? of_Z 0 then (gains + diff, losses) else (gains, losses - diff))
      (of_Z 0, of_Z 0) in
  for_range (p + 1) (length closes)
    (fun '(avgGain, avgLoss) i =>
       let diff := get closes i - get closes (i - 1) in
       let gain := if diff >? of_Z 0 then diff else of_Z 0 in
       let loss := if diff <? of_Z 0 then - diff else of_Z 0 in
       ((avgGain * of_Z (Z.of_nat p - 1) + gain) / of_nat p,
        (avgLoss * of_Z (Z.of_nat p - 1) + loss) / of_nat p))
    (gains / of_nat p, losses / of_nat p).

Definition RSI (closes : list num) (p : nat) : jsval num :=
  if (length closes <? p + 1)%nat then JNull
  else
    let '(avgGain, avgLoss) := RSI_averages closes p in
    if avgLoss === of_Z 0 then JNum (of_Z 100)
    else
      let rs := avgGain / avgLoss in
      JNum (of_Z 100 - of_Z 100 / (of_Z 1 + rs)).

Record macd_result : Type := {
  macd_macd : jsval num;
  macd_signal : jsval num;
  macd_hist : num;
  macd_prevHist : jsval num
}.

(** The MACD line: the differences of the two running EMAs. *)
Definition MACD_series (closes : list num) (fast slow : nat) : list num :=
  let emaF := SMA (slice 0 fast closes) fast in
  let emaS := SMA (slice 0 slow closes) slow in
  let kF := of_Z 2 / of_nat (fast + 1) in
  let kS := of_Z 2 / of_nat (slow + 1) in
  let '(_, _, series) :=
    for_range (Nat.max fast slow) (length closes)
      (fun '(emaF, emaS, series) i =>
         let emaF := if (fast <=? i)%nat
                     then JNum (get closes i * kF + toNumber emaF * (of_Z 1 - kF))
                     else emaF in
         let emaS := if (slow <=? i)%nat
                     then JNum (get closes i * kS + toNumber emaS * (of_Z 1 - kS))
                     else emaS in
         (emaF, emaS, series ++ [toNumber emaF - toNumber emaS]))
      (emaF, emaS, []) in
  series.

Definition MACD (closes : list num) (fast slow signal : nat) : option macd_result :=
  if (length closes <? slow + signal)%nat then None
  else
    let series := MACD_series closes fast slow in
    let macdVal := at_last series in
    let signalVal := EMA series signal in
    let hist := toNumber macdVal - toNumber signalVal in
    let prevSeries := removelast series in
    let prevSignal := match prevSeries with [] => JNull | _ => EMA prevSeries signal end in
    let prevMacd := match prevSeries with [] => JNull | _ => at_last prevSeries end in
    let prevHist := if not_null prevMacd && not_null prevSignal
                    then JNum (toNumber prevMacd - toNumber prevSignal)
                    else JNull in
    Some {| macd_macd := macdVal; macd_signal := signalVal;
            macd_hist := hist; macd_prevHist := prevHist |}.

Record bollinger_result : Type := {
  bb_mid : jsval num;
  bb_upper : num;
  bb_lower : num
}.

Definition Bollinger `{JSSqrt num} (closes : list num) (p : nat) (mult : num)
  : option bollinger_result :=
  if (length closes <? p)%nat then None
  else
    let mid := SMA closes p in
    let sd := stddev closes p in
    Some {| bb_mid := mid;
            bb_upper := toNumber mid + mult * toNumber sd;
            bb_lower := toNumber mid - mult * toNumber sd |}.

Record stoch_result : Type := {
  stoch_K : jsval num;
  stoch_D : jsval num;
  stoch_prevK : jsval num;
  stoch_prevD : jsval num
}.

(** The inner [smooth] of [Stoch]: the running SMA(p) of a series.  Each
    window [arr.slice(0, i + 1)] has at least [p] elements, so what is
    pushed is a number.  The loop that fills [dArr] is the same
    computation on [kSm] with period [dP]. *)
Definition smooth (arr : list num) (p : nat) : list num :=
  for_range (p - 1) (length arr)
    (fun out i => out ++ [toNumber (SMA (slice 0 (i + 1) arr) p)]) [].

Definition Stoch (highs lows closes : list num) (kP dP smoothK : nat)
  : option stoch_result :=
  if (length closes <? kP + dP)%nat then None
  else
    let kArr :=
      for_range (kP - 1) (length closes)
        (fun kArr i =>
           let hh := Math_max (slice (i + 1 - kP) (i + 1) highs) in
           let ll := Math_min (slice (i + 1 - kP) (i + 1) lows) in
           let k := ((get closes i - ll) / (hh - ll)) * of_Z 100 in
           kArr ++ [k]) [] in
    let kSm := smooth kArr smoothK in
    let dArr := smooth kSm dP in
    Some {| stoch_K := at_last kSm;
            stoch_D := at_last dArr;
            stoch_prevK := or_null (at_prev kSm);
            stoch_prevD := or_null (at_prev dArr) |}.

Definition CCI (highs lows closes : list num) (p : nat) : jsval num :=
  if (length closes <? p)%nat then JNull
  else
    let tp := mapi (fun c i => (get highs i + get lows i + get closes i) / of_Z 3) closes in
    let lastTP := toNumber (at_last tp) in
    let sma := toNumber (SMA tp p) in
    let slice := slice_last p tp in
    let meanDev := fold_left (fun a v => a + nabs (v - sma)) slice (of_Z 0) / of_nat p in
    JNum ((lastTP - sma) / (dec 15 3 * meanDev)).

Record adx_result : Type := {
  adx_adx : num;
  adx_plusDI : jsval num;
  adx_minusDI : jsval num
}.

(** The inner [wSmooth] of [ADX]: Wilder's running sum. *)
Definition wSmooth (arr : list num) (p : nat) : list num :=
  let prev := sum (slice 0 p arr) in
  snd (for_range p (length arr)
         (fun '(prev, out) i =>
            let prev := prev - prev / of_nat p + get arr i in
            (prev, out ++ [prev]))
         (prev, [prev])).

Definition ADX (highs lows closes : list num) (p : nat) : option adx_result :=
  if (length closes <? p + 1)%nat then None
  else
    let '(tr, plusDM, minusDM) :=
      for_range 1 (length highs)
        (fun '(tr, plusDM, minusDM) i =>
           let upMove := get highs i - get highs (i - 1) in
           let downMove := get lows (i - 1) - get lows i in
           let pdm := if (upMove >? downMove) && (upMove >? of_Z 0)
                      then upMove else of_Z 0 in
           let mdm := if (downMove >? upMove) && (downMove >? of_Z 0)
                      then downMove else of_Z 0 in
           let t := Math_max [get highs i - get lows i;
                              nabs (get highs i - get closes (i - 1));
                              nabs (get lows i - get closes (i - 1))] in
           (tr ++ [t], plusDM ++ [pdm], minusDM ++ [mdm]))
        ([], [], []) in
    let tr14 := wSmooth tr p in
    let plusDM14 := wSmooth plusDM p in
    let minusDM14 := wSmooth minusDM p in
    let plusDI := mapi (fun v i => of_Z 100 * (v / get tr14 i)) plusDM14 in
    let minusDI := mapi (fun v i => of_Z 100 * (v / get tr14 i)) minusDM14 in
    let dx := mapi (fun v i => of_Z 100 * nabs (v - get minusDI i) / (v + get minusDI i))
                plusDI in
    let adx := sum (slice 0 p dx) / of_nat p in
    let adx := for_range p (length dx)
                 (fun adx i => (adx * of_Z (Z.of_nat p - 1) + get dx i) / of_nat p) adx in
    Some {| adx_adx := adx;
            adx_plusDI := at_last plusDI;
            adx_minusDI := at_last minusDI |}.
End Indicators.

(** ** Signal engine *)

Section SignalEngine.
Context {num : Type} `{JSNumber num}.
Local Open Scope string_scope.
Local Open Scope js_scope.

(** The argument object of [decideSignal]. *)
Record indicator_set : Type := {
  rsi : jsval num;
  macd : option (macd_result (num := num));
  bb : option (bollinger_result (num := num));
  adx : option (adx_result (num := num));
  stoch : option (stoch_result (num := num));
  cci : jsval num;
  ema50 : jsval num;
  ema200 : jsval num;
  close : jsval num
}.

(** The two locals [score] and [notes]. *)
Definition tally : Type := (num * list string)%type.
Definition plus (st : tally) (d : num) (note : string) : tally :=
  (fst st + d, snd st ++ [note])%list.
Definition minus (st : tally) (d : num) (note : string) : tally :=
  (fst st - d, snd st ++ [note])%list.

Definition check_trend (i : indicator_set) (st : tally) : tally :=
  if truthy (ema50 i) && truthy (ema200 i) then
    if toNumber (ema50 i) >? toNumber (ema200 i)
    then plus st (of_Z 1) "Trend UP (EMA50>EMA200)"
    else minus st (of_Z 1) "Trend DOWN (EMA50<EMA200)"
  else st.

Definition check_rsi (i : indicator_set) (st : tally) : tally :=
  if not_null (rsi i) then
    if toNumber (rsi i) <? of_Z 30 then plus st (of_Z 1) "RSI < 30 (oversold)"
    else if toNumber (rsi i) >? of_Z 70 then minus st (of_Z 1) "RSI > 70 (overbought)"
    else st
  else st.

Definition check_macd (i : indicator_set) (st : tally) : tally :=
  match macd i with
  | Some m =>
      let no_prev := negb (not_null (macd_prevHist m)) in
      if (toNumber (macd_macd m) >? toNumber (macd_signal m))
         && (no_prev || (macd_hist m >? toNumber (macd_prevHist m)))
      then plus st (of_Z 1) "MACD bullish & rising hist"
      else if (toNumber (macd_macd m) <? toNumber (macd_signal m))
              && (no_prev || (macd_hist m <? toNumber (macd_prevHist m)))
      then minus st (of_Z 1) "MACD bearish & falling hist"
      else st
  | None => st
  end.

Definition check_bb (i : indicator_set) (st : tally) : tally :=
  match bb i with
  | Some b =>
      let pos := (toNumber (close i) - bb_lower b) / (bb_upper b - bb_lower b) in
      if pos <=? dec 1 1 then plus st (dec 5 1) "Near lower Bollinger"
      else if pos >=? dec 9 1 then minus st (dec 5 1) "Near upper Bollinger"
      else st
  | None => st
  end.

Definition check_adx (i : indicator_set) (st : tally) : tally :=
  match adx i with
  | Some a =>
      if adx_adx a >? of_Z 25 then
        if toNumber (adx_plusDI a) >? toNumber (adx_minusDI a)
        then plus st (dec 5 1) "ADX>25, +DI dominates"
        else minus st (dec 5 1) "ADX>25, -DI dominates"
      else st
  | None => st
  end.

Definition check_stoch (i : indicator_set) (st : tally) : tally :=
  match stoch i with
  | Some s =>
      if not_null (stoch_prevK s) && not_null (stoch_prevD s) then
        let K := toNumber (stoch_K s) in
        let D := toNumber (stoch_D s) in
        let prevK := toNumber (stoch_prevK s) in
        let prevD := toNumber (stoch_prevD s) in
        if (prevK <? prevD) && (K >? D) && (K <? of_Z 20)
        then plus st (dec 5 1) "Stoch bullish cross <20"
        else if (prevK >? prevD) && (K <? D) && (K >? of_Z 80)
        then minus st (dec 5 1) "Stoch bearish cross >80"
        else st
      else st
  | None => st
  end.

Definition check_cci (i : indicator_set) (st : tally) : tally :=
  if not_null (cci i) then
    if toNumber (cci i) <? of_Z (-100) then plus st (dec 5 1) "CCI < -100"
    else if toNumber (cci i) >? of_Z 100 then minus st (dec 5 1) "CCI > 100"
    else st
  else st.

(** [score] and [notes] when the seven checks have run. *)
Definition signal_tally (i : indicator_set) : tally :=
  let st := (of_Z 0, []) in
  let st := check_trend i st in
  let st := check_rsi i st in
  let st := check_macd i st in
  let st := check_bb i st in
  let st := check_adx i st in
  let st := check_stoch i st in
  let st := check_cci i st in
  st.

Definition verdict_of (score : num) : string :=
  if score >=? dec 15 1 then "LEAN LONG"
  else if score <=? - dec 15 1 then "LEAN SHORT"
  else "NEUTRAL / WAIT".

Record signal : Type := {
  sig_score : num;
  sig_verdict : string;
  sig_notes : list string
}.

Definition decideSignal (i : indicator_set) : signal :=
  let '(score, notes) := signal_tally i in
  {| sig_score := toFixed 2 score;
     sig_verdict := verdict_of score;
     sig_notes := notes |}.

(** The seven checks in the order of the source, and a run of any list of
    checks from the initial [score = 0], [notes = []]. *)
Definition signal_checks (i : indicator_set) : list (tally -> tally) :=
  [check_trend i; check_rsi i; check_macd i; check_bb i;
   check_adx i; check_stoch i; check_cci i].
Definition run_checks (checks : list (tally -> tally)) : tally :=
  fold_left (fun st chk => chk st) checks (of_Z 0, []).
End SignalEngine.
Arguments indicator_set num : clear implicits.
Arguments signal num : clear implicits.
Arguments tally num : clear implicits.

(** ** Live price cache *)

Section LivePrices.
Context {num : Type} `{JSNumber num}.
Local Open Scope js_scope.

(** A value of [livePrices]: [{ price, ts, pair }]. *)
Record tick : Type := {
  price : num;
  ts : num;
  pair : string
}.

(** [livePrices]: an object used as a map from asset id to tick.  Ids are
    finite numbers, which name the same property exactly when they are
    [===]. *)
Definition prices : Type := num -> option tick.
Definition no_prices : prices := fun _ => None.
Definition lookup (m : prices) (id : num) : option tick := m id.
Definition store (m : prices) (id : num) (t : tick) : prices :=
  fun k => if k === id then Some t else m k.

(** [payload.instruments[0]] of a stream entry, its fields as the handler
    reads them: [parseFloat(item.currentPrice)], [Number(item.timestamp)]
    when there is a timestamp, and the trading pair when there is one. *)
Record instrument : Type := {
  currentPrice : num;
  timestamp : option num;
  tradingPair : option string
}.

(** One [payload] of a message: [Number(payload.id)] when [payload] has
    an own property [id] ([JUndefined] otherwise), and its first
    instrument when there is a truthy one. *)
Record payload : Type := {
  payload_id : jsval num;
  payload_item : option instrument
}.

Definition upper_ascii (c : ascii) : ascii :=
  let n := nat_of_ascii c in
  if ((97 <=? n) && (n <=? 122))%nat then ascii_of_nat (n - 32) else c.
(** [toUpperCase], on ASCII letters. *)
Fixpoint toUpperCase (s : string) : string :=
  match s with
  | EmptyString => EmptyString
  | String c s' => String (upper_ascii c) (toUpperCase s')
  end.

(** The body of the [forEach] in the message handler; [now] is
    [Date.now()]. *)
Definition on_entry (now : num) (m : prices) (e : string * payload) : prices :=
  let '(pairKey, pl) := e in
  match payload_item pl with
  | None => m
  | Some item =>
      let price := currentPrice item in
      let ts := match timestamp item with Some t => t | None => now end in
      match payload_id pl with
      | JNum id =>
          if isFinite id && isFinite price
          then store m id {| price := price; ts := ts;
                             pair := match tradingPair item with
                                     | Some s => toUpperCase s
                                     | None => pairKey
                                     end |}
          else m
      | _ => m
      end
  end.

(** The message handler; [None] is a message that [JSON.parse] or
    [Object.entries] rejects, which the handler catches and logs. *)
Definition on_message (now : num) (m : prices)
           (msg : option (list (string * payload))) : prices :=
  match msg with
  | None => m
  | Some entries => fold_left (on_entry now) entries m
  end.
End LivePrices.
Arguments tick num : clear implicits.
Arguments prices num : clear implicits.
Arguments instrument num : clear implicits.
Arguments payload num : clear implicits.

(** ** Multi-timeframe analysis and the deferred outcome check *)

Section Analysis.
Context {num : Type} `{JSNumber num} `{JSSqrt num}.
Local Open Scope string_scope.
Local Open Scope list_scope.
Local Open Scope js_scope.

Record timeframe : Type := {
  label : string;
  interval : Z;
  weight : Z
}.

Definition TIMEFRAMES : list timeframe :=
  [ {| label := "15m"; interval := 900; weight := 1 |};
    {| label := "1h"; interval := 3600; weight := 2 |};
    {| label := "1d"; interval := 86400; weight := 3 |} ].

(** A row of the candle history with [toNum] applied to the three fields
    that are read. *)
Record candle : Type := {
  c_high : num;
  c_low : num;
  c_close : num
}.

(** What [analyzeOneTF] returns, with the [weight] that [analyzeAsset]
    adds to it. *)
Record tf_result : Type := {
  tf_label : string;
  tf_close : jsval num;
  tf_score : num;
  tf_verdict : string;
  tf_notes : list string;
  tf_weight : Z
}.

Definition indicators_of (rows : list candle) : indicator_set num :=
  let closes := map c_close rows in
  let highs := map c_high rows in
  let lows := map c_low rows in
  {| rsi := RSI closes 14;
     macd := MACD closes 12 26 9;
     bb := Bollinger closes 20 (of_Z 2);
     adx := ADX highs lows closes 14;
     stoch := Stoch highs lows closes 14 3 3;
     cci := CCI highs lows closes 20;
     ema50 := EMA closes 50;
     ema200 := EMA closes 200;
     close := at_last closes |}.

(** [analyzeOneTF] on the rows that [fetchOHLC] returned. *)
Definition analyzeOneTF (rows : list candle) (tf : timeframe) : tf_result :=
  let s := decideSignal (indicators_of rows) in
  {| tf_label := label tf;
     tf_close := at_last (map c_close rows);
     tf_score := sig_score s;
     tf_verdict := sig_verdict s;
     tf_notes := sig_notes s;
     tf_weight := weight tf |}.

Definition totalW : num :=
  fold_left (fun a b => a + of_Z (weight b)) TIMEFRAMES (of_Z 0).

Definition weightedScore (perTF : list tf_result) : num :=
  fold_left (fun a r => a + tf_score r * of_Z (tf_weight r)) perTF (of_Z 0) / totalW.

Definition globalVerdict (weightedScore : num) : string :=
  if weightedScore >=? of_Z 1 then "GLOBAL: LEAN LONG"
  else if weightedScore <=? of_Z (-1) then "GLOBAL: LEAN SHORT"
  else "NEUTRAL / WAIT".

(** The line appended to [analyses.jsonl]; [t] and [epoch] are both read
    off the clock value [now] (milliseconds). *)
Record analysis : Type := {
  a_t : Z;
  a_epoch : Z;
  a_assetId : num;
  a_pair : option string;
  a_spotAtAnalysis : jsval num;
  a_weightedScore : num;
  a_verdict : string;
  a_perTF : list (string * jsval num * num)
}.

(** What the timer callback of [analyzeAsset] closes over. *)
Record pending : Type := {
  p_assetId : num;
  p_pairName : option string;
  p_spot : jsval num;
  p_record : analysis
}.

(** The per-timeframe loop; [fetch] is [fetchOHLC(assetId, _)], [None]
    when it throws (or returns no array of rows, so that [analyzeOneTF]
    throws), which ends [analyzeAsset] at once. *)
Fixpoint collect (fetch : Z -> option (list candle)) (tfs : list timeframe)
  : option (list tf_result) :=
  match tfs with
  | [] => Some []
  | tf :: tfs' =>
      match fetch (interval tf) with
      | None => None
      | Some rows =>
          match collect fetch tfs' with
          | None => None
          | Some rest => Some (analyzeOneTF rows tf :: rest)
          end
      end
  end.

(** [analyzeAsset]: the record it appends and the timer it sets. *)
Definition analyzeAsset (fetch : Z -> option (list candle)) (livePrices : prices num)
           (now : Z) (assetId : num) : option (analysis * pending) :=
  match collect fetch TIMEFRAMES with
  | None => None
  | Some perTF =>
      let ws := weightedScore perTF in
      let verdict := globalVerdict ws in
      let live := lookup livePrices assetId in
      let spot := match live with Some l => JNum (price l) | None => JNull end in
      let pairName := match live with Some l => Some (pair l) | None => None end in
      let record :=
        {| a_t := now;
           a_epoch := (now / 1000)%Z;
           a_assetId := assetId;
           a_pair := pairName;
           a_spotAtAnalysis := spot;
           a_weightedScore := toFixed 3 ws;
           a_verdict := verdict;
           a_perTF := map (fun r => (tf_label r, tf_close r, tf_score r)) perTF |} in
      Some (record,
            {| p_assetId := assetId; p_pairName := pairName;
               p_spot := spot; p_record := record |})
  end.

(** The line appended to [outcomes.jsonl]. *)
Record outcome : Type := {
  o_tCheck : Z;
  o_assetId : num;
  o_pair : option string;
  o_spotAtT : jsval num;
  o_spotAtTplus1h : jsval num;
  o_delta : jsval num;
  o_predictedSign : num;
  o_wasCorrect : option bool
}.

(** The timer callback, run on the cache as it is at [now2]. *)
Definition check_outcome (c : pending) (livePrices : prices num) (now2 : Z) : outcome :=
  let spot := p_spot c in
  let spotLater := match lookup livePrices (p_assetId c) with
                   | Some l => JNum (price l)
                   | None => JNull
                   end in
  let predSign := Math_sign (a_weightedScore (p_record c)) in
  let movedUp := if not_null spot && not_null spotLater
                 then Some (toNumber spotLater >? toNumber spot)
                 else None in
  let correct :=
    match movedUp with
    | Some up =>
        if predSign >? of_Z 0 then Some (Bool.eqb up true)
        else if predSign <? of_Z 0 then Some (Bool.eqb up false)
        else None
    | None => None
    end in
  {| o_tCheck := now2;
     o_assetId := p_assetId c;
     o_pair := p_pairName c;
     o_spotAtT := spot;
     o_spotAtTplus1h := spotLater;
     o_delta := if not_null spot && not_null spotLater
                then JNum (toFixed 6 (toNumber spotLater - toNumber spot))
                else JNull;
     o_predictedSign := predSign;
     o_wasCorrect := correct |}.

(** *** The process as a transition system

    The state is the cache, the pending timers and the calls of
    [appendJsonLine] so far, oldest first.  Each call of [analyzeAsset]
    is given a serial number, which labels its record, its timer and the
    outcome that the timer appends; the number is bookkeeping of the
    model, not data of the program. *)
Inductive appended : Type :=
| AppendAnalysis (k : nat) (r : analysis)
| AppendOutcome (k : nat) (o : outcome).

Record world : Type := {
  w_prices : prices num;
  w_timers : list (nat * pending);
  w_log : list appended;
  w_next : nat
}.

Definition start : world :=
  {| w_prices := no_prices; w_timers := []; w_log := []; w_next := 0 |}.

Inductive step : world -> world -> Prop :=
| step_message (w : world) (now : num) (msg : option (list (string * payload num))) :
    step w {| w_prices := on_message now (w_prices w) msg;
              w_timers := w_timers w; w_log := w_log w; w_next := w_next w |}
| step_analyze (w : world) fetch (now : Z) (assetId : num) r c :
    analyzeAsset fetch (w_prices w) now assetId = Some (r, c) ->
    step w {| w_prices := w_prices w;
              w_timers := w_timers w ++ [(w_next w, c)];
              w_log := w_log w ++ [AppendAnalysis (w_next w) r];
              w_next := S (w_next w) |}
| step_fire (w : world) (now2 : Z) before k c after :
    w_timers w = before ++ (k, c) :: after ->
    step w {| w_prices := w_prices w;
              w_timers := before ++ after;
              w_log := w_log w ++ [AppendOutcome k (check_outcome c (w_prices w) now2)];
              w_next := w_next w |}.

Inductive reachable : world -> Prop :=
| reach_start : reachable start
| reach_step w w' : reachable w -> step w w' -> reachable w'.

Definition analysis_ids (log : list appended) : list nat :=
  flat_map (fun e => match e with AppendAnalysis k _ => [k] | _ => [] end) log.
Definition outcome_ids (log : list appended) : list nat :=
  flat_map (fun e => match e with AppendOutcome k _ => [k] | _ => [] end) log.
End Analysis.
Arguments candle num : clear implicits.
Arguments tf_result num : clear implicits.
Arguments analysis num : clear implicits.
Arguments pending num : clear implicits.
Arguments outcome num : clear implicits.
Arguments appended num : clear implicits.
Arguments world num : clear implicits.

(** ** Definitions used to state the results *)

(** Scores are counted in halves: [half k] is the double [k / 2]. *)
Definition half (k : Z) : float := (of_Z k / of_Z 2)%js.
(** The number of halves in a double. *)
Definition unhalf (x : float) : Z := Qfloor (to_Q x * 2).
(** What a check adds to a score, in halves: its effect on [score = 0]. *)
Definition units (chk : tally float -> tally float) : Z :=
  unhalf (fst (chk (of_Z 0, []))).
Definition total_units (checks : list (tally float -> tally float)) : Z :=
  fold_right Z.add 0%Z (map units checks).

(** [lo, lo + 1, ..., lo + n - 1]. *)
Definition Zrange (lo : Z) (n : nat) : list Z :=
  map (fun i => (lo + Z.of_nat i)%Z) (seq 0 n).

(** Rounding a rational to [d] decimal places, halves away from zero. *)
Definition round_dp (d : nat) (q : Q) : Q :=
  let scale := inject_Z (10 ^ Z.of_nat d) in
  (inject_Z (Z.sgn (Qnum q) * Qfloor (Qabs q * scale + (1 # 2))) / scale)%Q.

(** The weighted mean of the specification, in exact arithmetic:
    the sum of score times weight over the sum of the weights. *)
Definition spec_weighted_score (perTF : list (tf_result float)) : Q :=
  (fold_right Qplus 0 (map (fun r => to_Q (tf_score r) * inject_Z (tf_weight r)) perTF)
   / inject_Z (fold_right Z.add 0%Z (map (fun tf => weight tf) TIMEFRAMES)))%Q.

(** The sign of a rational as a double: 1, -1 or 0. *)
Definition sign_of_Q (q : Q) : float := of_Z (Z.sgn (Qnum q)).

(** A check adds a fixed number of halves, at most two, to any score. *)
Definition adds (chk : tally float -> tally float) : Prop :=
  (-2 <= units chk <= 2)%Z /\
  forall k n, (-20 <= k <= 20)%Z -> fst (chk (half k, n)) = half (k + units chk).

(** What the scorer does on a score of [k] halves, checked for each [k]. *)
Definition scorer_at (k : Z) : bool :=
  let t := half k in
  Qeq_bool (to_Q t) (k # 2)
  && String.eqb (verdict_of t)
       (if (3 <=? k)%Z then "LEAN LONG"
        else if (k <=? -3)%Z then "LEAN SHORT" else "NEUTRAL / WAIT")
  && PrimFloat.Leibniz.eqb (toFixed 2 t) t
  && Qeq_bool (to_Q t) (round_dp 2 (to_Q t)).

(** The weighted score for per-timeframe scores of [k1], [k2] and [k3]
    halves, as [weightedScore] computes it and in exact arithmetic. *)
Definition ws_at (k1 k2 k3 : Z) : float :=
  ((((of_Z 0 + half k1 * of_Z 1) + half k2 * of_Z 2) + half k3 * of_Z 3) / totalW)%js.

Definition exact_at (k1 k2 k3 : Z) : Q :=
  ((to_Q (half k1) * inject_Z 1
    + (to_Q (half k2) * inject_Z 2 + (to_Q (half k3) * inject_Z 3 + 0)))
   / inject_Z (1 + (2 + (3 + 0))))%Q.

(** A value of [Math.sign] is positive, negative or zero, and only one. *)
Definition sign_cases (s : float) : bool :=
  if (s >? of_Z 0)%js then negb (s <? of_Z 0)%js && negb (s === of_Z 0)%js
  else if (s <? of_Z 0)%js then negb (s === of_Z 0)%js
  else (s === of_Z 0)%js.

(** The steps of the weighted sum, each checked on its range of halves:
    the sum stays an exact number of halves. *)
Definition sum_step (w : Z) (j k : Z) : bool :=
  PrimFloat.Leibniz.eqb (half j + half k * of_Z w)%js (half (j + w * k)).

(** What the aggregator does on a weighted sum of [K] halves: the quotient
    by [totalW], its distance to the exact [K / 12], the verdict, and the
    sign of the score rounded to three decimal places. *)
Definition aggregate_at (K : Z) : bool :=
  let ws := (half K / totalW)%js in
  let ex := (K # 12)%Q in
  let w := toFixed 3 ws in
  isFinite ws
  && Qle_bool (Qabs (to_Q ws - ex)) (1 # 1000000000)
  && String.eqb (globalVerdict ws)
       (if Qle_bool 1 (to_Q ws) then "GLOBAL: LEAN LONG"
        else if Qle_bool (to_Q ws) (-1) then "GLOBAL: LEAN SHORT" else "NEUTRAL / WAIT")
  && Bool.eqb (Qle_bool 1 ex) (Qle_bool 1 (to_Q ws))
  && Bool.eqb (Qle_bool ex (-1)) (Qle_bool (to_Q ws) (-1))
  && PrimFloat.Leibniz.eqb (Math_sign w) (sign_of_Q (to_Q w))
  && sign_cases (Math_sign w).

Section CacheStatements.
Context {num : Type} `{JSNumber num}.

(** A stream entry that the handler accepts for asset [id]. *)
Definition valid_tick (id : num) (e : string * payload num) : Prop :=
  exists item, payload_item (snd e) = Some item /\
               payload_id (snd e) = JNum id /\
               isFinite id = true /\ isFinite (currentPrice item) = true.

(** What the handler stores for an entry. *)
Definition tick_of (now : num) (e : string * payload num) : option (tick num) :=
  match payload_item (snd e) with
  | Some item =>
      Some {| price := currentPrice item;
              ts := match timestamp item with Some t => t | None => now end;
              pair := match tradingPair item with
                      | Some s => toUpperCase s
                      | None => fst e
                      end |}
  | None => None
  end.

(** Stream entries applied one after the other, each with the clock value
    of the message that carried it. *)
Definition apply_ticks (ticks : list (num * (string * payload num))) (m : prices num)
  : prices num :=
  fold_left (fun m t => on_entry (fst t) m (snd t)) ticks m.

(** The wording of the specification: the tick held for [id] has the
    latest timestamp among the ticks applied. *)
Definition holds_latest_timestamp (id : num)
           (ticks : list (num * (string * payload num))) : Prop :=
  forall held, lookup (apply_ticks ticks no_prices) id = Some held ->
  forall t applied, In t ticks -> tick_of (fst t) (snd t) = Some applied ->
                    (ts applied <=? ts held)%js = true.

End CacheStatements.

Section LogStatements.
Context {num : Type} `{JSNumber num} `{JSSqrt num}.

(** Every outcome in the log comes after the analysis with its serial
    number and is what the timer of that analysis computes. *)
Definition traced (log : list (appended num)) : Prop :=
  forall l1 k o l2,
    log = l1 ++ AppendOutcome k o :: l2 ->
    exists c livePrices now2,
      In (AppendAnalysis k (p_record c)) l1 /\ o = check_outcome c livePrices now2.

Definition invariant (w : world num) : Prop :=
  analysis_ids (w_log w) = seq 0 (w_next w) /\
  NoDup (map fst (w_timers w) ++ outcome_ids (w_log w)) /\
  (forall k c, In (k, c) (w_timers w) -> In (AppendAnalysis k (p_record c)) (w_log w)) /\
  traced (w_log w).

End LogStatements.


(** ** Sample inputs *)

(** An indicator set on which three checks fire: RSI oversold (+1),
    CCI above 100 (-0.5) and a falling MACD (-1). *)
Definition sample_indicators : indicator_set float :=
  {| rsi := JNum (of_Z 25);
     macd := Some {| macd_macd := JNum (of_Z (-2)); macd_signal := JNum (of_Z (-1));
                     macd_hist := of_Z (-1); macd_prevHist := JNull |};
     bb := None; adx := None; stoch := None;
     cci := JNum (of_Z 150);
     ema50 := JNull; ema200 := JNull;
     close := JNum (of_Z 10) |}.

(** An indicator set with RSI oversold (+1) and CCI below -100 (+0.5). *)
Definition long_indicators : indicator_set float :=
  {| rsi := JNum (of_Z 25); macd := None; bb := None; adx := None; stoch := None;
     cci := JNum (of_Z (-150)); ema50 := JNull; ema200 := JNull; close := JNum (of_Z 10) |}.

(** Indicator sets with EMA50 = EMA200 = 5, and with EMA50 = 0. *)
Definition tie_indicators : indicator_set float :=
  {| rsi := JNull; macd := None; bb := None; adx := None; stoch := None; cci := JNull;
     ema50 := JNum (of_Z 5); ema200 := JNum (of_Z 5); close := JNum (of_Z 5) |}.

Definition zero_indicators : indicator_set float :=
  {| rsi := JNull; macd := None; bb := None; adx := None; stoch := None; cci := JNull;
     ema50 := JNum (of_Z 0); ema200 := JNum (of_Z 7); close := JNum (of_Z 5) |}.

Definition empty_tally : tally float := (of_Z 0, []).

(** Twenty candles with high = low = close = 1. *)
Definition flat20 : list float := repeat (of_Z 1) 20.

(** Two valid ticks for asset 1; the one that arrives first carries the
    later timestamp. *)
Definition tick_late : float * (string * payload float) :=
  (of_Z 0, ("BTC_USD"%string,
            {| payload_id := JNum (of_Z 1);
               payload_item := Some {| currentPrice := of_Z 10;
                                       timestamp := Some (of_Z 2000);
                                       tradingPair := Some "btc/usd"%string |} |})).

Definition tick_early : float * (string * payload float) :=
  (of_Z 0, ("BTC_USD"%string,
            {| payload_id := JNum (of_Z 1);
               payload_item := Some {| currentPrice := of_Z 11;
                                       timestamp := Some (of_Z 1000);
                                       tradingPair := Some "btc/usd"%string |} |})).

(** The twenty closes of the RSI scenario of the specification. *)
Definition scenario_closes : list float :=
  [44; 44.25; 44.5; 43.75; 44.5; 44.25; 45; 47; 46.75; 46.5;
   48; 47.75; 48.5; 49; 49.5; 48; 48.5; 49; 50; 50.5]%float.

(** Candles one unit above and below each close. *)
Definition candles_around (closes : list float) : list (candle float) :=
  map (fun c => {| c_high := (c + of_Z 1)%js; c_low := (c - of_Z 1)%js; c_close := c |})
      closes.

(** Forty candles for each timeframe: a steady fall for 15m (score 1.5),
    the scenario twice for 1h (score 0), an accelerating rise for 1d
    (score -1.5); and a cache that holds a price for asset 1. *)
Definition sample_fetch (interval : Z) : option (list (candle float)) :=
  if (interval =? 900)%Z
  then Some (candles_around (map (fun i => of_Z (100 - Z.of_nat i)) (seq 0 40)))
  else if (interval =? 3600)%Z
  then Some (candles_around (scenario_closes ++ scenario_closes))
  else Some (candles_around (map (fun i => of_Z (100 + Z.of_nat i * Z.of_nat i)) (seq 0 40))).

Definition sample_prices : prices float :=
  store no_prices (of_Z 1) {| price := of_Z 100; ts := of_Z 1000; pair := "BTC/USD" |}.


(** A run of the process: two analyses of asset 1 on an empty cache, then
    the timer of the first one fires. *)
Definition sample_world : world float :=
  match analyzeAsset sample_fetch no_prices 0 (of_Z 1) with
  | Some (r, c) =>
      {| w_prices := no_prices;
         w_timers := [(1%nat, c)];
         w_log := [AppendAnalysis 0 r; AppendAnalysis 1 r;
                   AppendOutcome 0 (check_outcome c no_prices 3600000)];
         w_next := 2 |}
  | None => start
  end.



(** Whether a check fires: 1 when it changes a zero score, else 0. *)
Definition fired (chk : tally float -> tally float) : nat :=
  if (units chk =? 0)%Z then 0%nat else 1%nat.


(** Forty steadily falling candles for every timeframe (score 1.5 each). *)
Definition falling_fetch (interval : Z) : option (list (candle float)) :=
  Some (candles_around (map (fun i => of_Z (100 - Z.of_nat i)) (seq 0 40))).

(** The state after the first stream message, which carries [tick_late]. *)
Definition ticked_world : world float :=
  {| w_prices := on_message (of_Z 0) no_prices (Some [snd tick_late]);
     w_timers := []; w_log := []; w_next := 0 |}.

(** Fetches that fail for asset 5500 and succeed for the others. *)
Definition flaky_fetch (id interval : Z) : option (list (candle float)) :=
  if (id =? 5500)%Z then None else sample_fetch interval.

(** ** The address of the candle history *)


Fixpoint starts_with (pat s : string) : bool :=
  match pat, s with
  | EmptyString, _ => true
  | String p pat', String c s' => Ascii.eqb p c && starts_with pat' s'
  | String _ _, EmptyString => false
  end.

Fixpoint drop (n : nat) (s : string) : string :=
  match n, s with
  | O, _ => s
  | S n', String _ s' => drop n' s'
  | S _, EmptyString => EmptyString
  end.

(** [s.replace(pat, rep)] for a string pattern and a replacement text
    without [$]: the first occurrence of [pat] is replaced. *)
Fixpoint replace (pat rep s : string) : string :=
  if starts_with pat s then (rep ++ drop (String.length pat) s)%string
  else match s with
       | EmptyString => EmptyString
       | String c s' => String c (replace pat rep s')
       end.






(** ** The scheduler, the clock and the feed connection *)

Definition ASSET_IDS : list Z := [0; 1; 5500; 5000; 5002]%Z.

Section Scheduler.
Context {num : Type} `{JSNumber num} `{JSSqrt num}.

(** One turn of the loop of [runAllAssets]: [analyzeAsset(id)] inside
    [try]/[catch].  When it completes, its record is appended and its timer
    is set; when it throws, the error is logged and nothing else happens.
    [fetch id] is [fetchOHLC(id, _)] and [clock id] the time read during
    that call. *)
Definition analyze_in (fetch : Z -> Z -> option (list (candle num))) (clock : Z -> Z)
           (w : world num) (id : Z) : world num :=
  match analyzeAsset (fetch id) (w_prices w) (clock id) (of_Z id) with
  | Some (r, c) =>
      {| w_prices := w_prices w;
         w_timers := w_timers w ++ [(w_next w, c)];
         w_log := w_log w ++ [AppendAnalysis (w_next w) r];
         w_next := S (w_next w) |}
  | None => w
  end.

(** [runAllAssets], for a pass during which no stream message is handled
    and no timer fires (those interleavings are steps of [step]). *)
Definition runAllAssets (fetch : Z -> Z -> option (list (candle num))) (clock : Z -> Z)
           (w : world num) : world num :=
  fold_left (analyze_in fetch clock) ASSET_IDS w.

(** All three fetches of an asset succeed. *)
Definition fetch_ok (fetch : Z -> Z -> option (list (candle num))) (id : Z) : bool :=
  forallb (fun tf => match fetch id (interval tf) with Some _ => true | None => false end)
          TIMEFRAMES.

(** The asset ids of the analyses in a log, oldest first. *)
Definition analysed_assets (log : list (appended num)) : list num :=
  flat_map (fun e => match e with AppendAnalysis _ r => [a_assetId r] | _ => [] end) log.
End Scheduler.

(** [msToNextHour] on a clock value [now = Date.now()], a nonnegative
    integer of milliseconds: [Math.ceil(now / 3600000) * 3600000 - now].
    The doubles of the source compute these integers exactly for clock
    values below 2^52. *)
Definition msToNextHour (now : Z) : Z :=
  (- ((- now) / 3600000) * 3600000 - now)%Z.

(** The delay of the first pass: [Math.min(msToNextHour(), 15_000)]. *)
Definition first_pass_delay (now : Z) : Z := Z.min (msToNextHour now) 15000.

(** The connection of [startWss]: the sockets that are open (created and
    not yet closed), the reconnection timers that are pending, and the
    number of calls of [startWss] so far. *)
Record feed : Type := {
  feed_open : nat;
  feed_timers : nat;
  feed_started : nat
}.

(** The program calls [startWss] once when it is loaded. *)
Definition feed_start : feed := {| feed_open := 1; feed_timers := 0; feed_started := 1 |}.

(** The handlers of a socket: [open], [message] and [error] only log or
    write the cache; [close] sets one timer of 3 s for [startWss]; the
    timer, when it fires, creates the next socket. *)
Inductive feed_step : feed -> feed -> Prop :=
| feed_logs (f : feed) : (1 <= feed_open f)%nat -> feed_step f f
| feed_close (f : feed) :
    (1 <= feed_open f)%nat ->
    feed_step f {| feed_open := feed_open f - 1;
                   feed_timers := S (feed_timers f);
                   feed_started := feed_started f |}
| feed_retry (f : feed) :
    (1 <= feed_timers f)%nat ->
    feed_step f {| feed_open := S (feed_open f);
                   feed_timers := feed_timers f - 1;
                   feed_started := S (feed_started f) |}.

Inductive feed_reachable : feed -> Prop :=
| feed_reach_start : feed_reachable feed_start
| feed_reach_step f f' : feed_reachable f -> feed_step f f' -> feed_reachable f'.

(** ** Enumeration over integer ranges and equality of doubles *)

Lemma Zrange_In (lo : Z) (n : nat) (k : Z) :
  (lo <= k < lo + Z.of_nat n)%Z -> In k (Zrange lo n).
Proof.
  intros Hk. unfold Zrange. apply in_map_iff.
  exists (Z.to_nat (k - lo)). split; [lia |].
  apply in_seq. lia.
Qed.

Lemma forallb_Zrange (f : Z -> bool) (lo : Z) (n : nat) :
  forallb f (Zrange lo n) = true ->
  forall k, (lo <= k < lo + Z.of_nat n)%Z -> f k = true.
Proof.
  intros Hall k Hk. rewrite forallb_forall in Hall.
  apply Hall, Zrange_In, Hk.
Qed.

Lemma feq_eq (x y : float) : PrimFloat.Leibniz.eqb x y = true -> x = y.
Proof. apply FloatAxioms.Leibniz.eqb_spec. Qed.

(** ** The scorer counts in exact halves *)

Lemma half_0 : half 0 = of_Z 0.
Proof. reflexivity. Qed.

Lemma half_moves (k : Z) :
  (-20 <= k <= 20)%Z ->
  (half k + of_Z 1)%js = half (k + 2) /\
  (half k - of_Z 1)%js = half (k - 2) /\
  (half k + dec 5 1)%js = half (k + 1) /\
  (half k - dec 5 1)%js = half (k - 1).
Proof.
  intros Hk.
  pose (f := fun k =>
    PrimFloat.Leibniz.eqb (half k + of_Z 1)%js (half (k + 2)) &&
    PrimFloat.Leibniz.eqb (half k - of_Z 1)%js (half (k - 2)) &&
    PrimFloat.Leibniz.eqb (half k + dec 5 1)%js (half (k + 1)) &&
    PrimFloat.Leibniz.eqb (half k - dec 5 1)%js (half (k - 1))).
  assert (Hf : f k = true).
  { apply (@forallb_Zrange f (-20) 41); [vm_compute; reflexivity | lia]. }
  unfold f in Hf. rewrite !andb_true_iff in Hf.
  destruct Hf as [[[H1 H2] H3] H4].
  repeat split; apply feq_eq; assumption.
Qed.

Ltac adds_branch :=
  split;
  [ vm_compute; split; discriminate
  | intros k n Hk; cbn [fst snd plus minus];
    destruct (half_moves Hk) as (H1 & H2 & H3 & H4);
    first [ exact H1 | exact H2 | exact H3 | exact H4
          | rewrite Z.add_0_r; reflexivity ] ].

Lemma check_trend_adds (i : indicator_set float) : adds (check_trend i).
Proof.
  unfold adds, units, check_trend.
  destruct (truthy (ema50 i) && truthy (ema200 i));
    [ destruct (toNumber (ema50 i) >? toNumber (ema200 i))%js |]; adds_branch.
Qed.

Lemma check_rsi_adds (i : indicator_set float) : adds (check_rsi i).
Proof.
  unfold adds, units, check_rsi.
  destruct (not_null (rsi i));
    [ destruct (toNumber (rsi i) <? of_Z 30)%js;
      [| destruct (toNumber (rsi i) >? of_Z 70)%js ] |]; adds_branch.
Qed.

Lemma check_macd_adds (i : indicator_set float) : adds (check_macd i).
Proof.
  unfold adds, units, check_macd.
  destruct (macd i) as [m |]; [| adds_branch].
  cbv zeta.
  match goal with |- context [if ?c then _ else _] => destruct c end;
    [ adds_branch |].
  match goal with |- context [if ?c then _ else _] => destruct c end; adds_branch.
Qed.

Lemma check_bb_adds (i : indicator_set float) : adds (check_bb i).
Proof.
  unfold adds, units, check_bb.
  destruct (bb i) as [b |]; [| adds_branch].
  cbv zeta.
  match goal with |- context [if ?c then _ else _] => destruct c end;
    [ adds_branch |].
  match goal with |- context [if ?c then _ else _] => destruct c end; adds_branch.
Qed.

Lemma check_adx_adds (i : indicator_set float) : adds (check_adx i).
Proof.
  unfold adds, units, check_adx.
  destruct (adx i) as [a |]; [| adds_branch].
  destruct (adx_adx a >? of_Z 25)%js; [| adds_branch].
  destruct (toNumber (adx_plusDI a) >? toNumber (adx_minusDI a))%js; adds_branch.
Qed.

Lemma check_stoch_adds (i : indicator_set float) : adds (check_stoch i).
Proof.
  unfold adds, units, check_stoch.
  destruct (stoch i) as [s |]; [| adds_branch].
  destruct (not_null (stoch_prevK s) && not_null (stoch_prevD s)); [| adds_branch].
  cbv zeta.
  match goal with |- context [if ?c then _ else _] => destruct c end;
    [ adds_branch |].
  match goal with |- context [if ?c then _ else _] => destruct c end; adds_branch.
Qed.

Lemma check_cci_adds (i : indicator_set float) : adds (check_cci i).
Proof.
  unfold adds, units, check_cci.
  destruct (not_null (cci i));
    [ destruct (toNumber (cci i) <? of_Z (-100))%js;
      [| destruct (toNumber (cci i) >? of_Z 100)%js ] |]; adds_branch.
Qed.

Create HintDb scorer.
#[local] Hint Resolve check_trend_adds check_rsi_adds check_macd_adds check_bb_adds
  check_adx_adds check_stoch_adds check_cci_adds : scorer.

Lemma signal_checks_add (i : indicator_set float) : Forall adds (signal_checks i).
Proof.
  unfold signal_checks.
  repeat (apply Forall_cons; [auto with scorer |]). apply Forall_nil.
Qed.

Lemma total_units_bound (l : list (tally float -> tally float)) :
  Forall adds l ->
  (- 2 * Z.of_nat (length l) <= total_units l <= 2 * Z.of_nat (length l))%Z.
Proof.
  induction 1 as [| chk l [Hu _] _ IH]; unfold total_units in *; cbn [map fold_right length];
    lia.
Qed.

(** Running checks that each add halves adds the sum of their halves. *)
Lemma fold_checks_adds (l : list (tally float -> tally float)) :
  Forall adds l ->
  forall k n,
    (-20 + 2 * Z.of_nat (length l) <= k <= 20 - 2 * Z.of_nat (length l))%Z ->
    fst (fold_left (fun st chk => chk st) l (half k, n)) = half (k + total_units l).
Proof.
  induction 1 as [| chk l [Hu Hchk] Hl IH]; intros k n Hk.
  - cbn. rewrite Z.add_0_r. reflexivity.
  - cbn [fold_left length] in *.
    destruct (chk (half k, n)) as [s n'] eqn:E.
    assert (Hs : s = half (k + units chk)).
    { rewrite <- (Hchk k n) by lia. rewrite E. reflexivity. }
    subst s. rewrite IH by lia.
    unfold total_units. cbn [map fold_right]. f_equal. lia.
Qed.

Lemma run_checks_half (l : list (tally float -> tally float)) :
  Forall adds l -> (length l <= 7)%nat ->
  fst (run_checks l) = half (total_units l).
Proof.
  intros Hl Hlen. unfold run_checks. rewrite <- half_0.
  rewrite fold_checks_adds by (assumption || lia). reflexivity.
Qed.

Lemma total_units_perm (l l' : list (tally float -> tally float)) :
  Permutation l l' -> total_units l = total_units l'.
Proof.
  unfold total_units.
  induction 1; cbn [map fold_right]; lia.
Qed.

Lemma signal_tally_run (i : indicator_set float) :
  signal_tally i = run_checks (signal_checks i).
Proof. reflexivity. Qed.

(** The accumulated score is a whole number of halves between -7 and 7. *)
Lemma signal_total_half (i : indicator_set float) :
  exists k, (-14 <= k <= 14)%Z /\ fst (signal_tally i) = half k.
Proof.
  exists (total_units (signal_checks i)). split.
  - pose proof (total_units_bound (signal_checks_add i)) as Hb.
    cbn [signal_checks length] in Hb. lia.
  - rewrite signal_tally_run.
    apply run_checks_half; [apply signal_checks_add | cbn; lia].
Qed.

Lemma scorer_at_all (k : Z) : (-14 <= k <= 14)%Z -> scorer_at k = true.
Proof.
  intros Hk. apply (@forallb_Zrange scorer_at (-14) 29); [vm_compute; reflexivity | lia].
Qed.

Lemma scorer_at_spec (k : Z) :
  (-14 <= k <= 14)%Z ->
  (to_Q (half k) == k # 2)%Q /\
  verdict_of (half k) =
    (if (3 <=? k)%Z then "LEAN LONG"
     else if (k <=? -3)%Z then "LEAN SHORT" else "NEUTRAL / WAIT")%string /\
  toFixed 2 (half k) = half k /\
  (to_Q (half k) == round_dp 2 (to_Q (half k)))%Q.
Proof.
  intros Hk. pose proof (scorer_at_all Hk) as H.
  unfold scorer_at in H. cbv zeta in H. rewrite !andb_true_iff in H.
  destruct H as [[[H1 H2] H3] H4].
  repeat split.
  - apply Qeq_bool_eq, H1.
  - apply String.eqb_eq, H2.
  - apply feq_eq, H3.
  - apply Qeq_bool_eq, H4.
Qed.

(** The score that [decideSignal] reports is the accumulated one. *)
Lemma decideSignal_score (i : indicator_set float) :
  exists k, (-14 <= k <= 14)%Z /\ fst (signal_tally i) = half k /\
            sig_score (decideSignal i) = half k /\
            sig_verdict (decideSignal i) = verdict_of (half k).
Proof.
  destruct (signal_total_half i) as (k & Hk & Ht).
  exists k. split; [exact Hk |]. split; [exact Ht |].
  unfold decideSignal. destruct (signal_tally i) as [score notes].
  cbn [fst] in Ht. subst score. cbn [sig_score sig_verdict].
  split; [apply (scorer_at_spec Hk) | reflexivity].
Qed.

(** C5.  For every indicator set (with its latest close), the verdict of
    [decideSignal] is LEAN LONG when the accumulated score is at least 1.5,
    LEAN SHORT when it is at most -1.5 and NEUTRAL otherwise, and the score
    it reports is the accumulated score rounded to two decimal places.  The
    accumulated score is a finite double; the comparisons and the rounding
    are those of its exact value. *)
Theorem decideSignal_verdict_and_rounding (i : indicator_set float) :
  let total := fst (signal_tally i) in
  let s := decideSignal i in
  isFinite total = true /\
  ((3 # 2 <= to_Q total)%Q -> sig_verdict s = "LEAN LONG"%string) /\
  ((to_Q total <= - (3 # 2))%Q -> sig_verdict s = "LEAN SHORT"%string) /\
  ((- (3 # 2) < to_Q total < 3 # 2)%Q -> sig_verdict s = "NEUTRAL / WAIT"%string) /\
  sig_score s = toFixed 2 total /\
  (to_Q (sig_score s) == round_dp 2 (to_Q total))%Q.
Proof.
  cbv zeta.
  destruct (decideSignal_score i) as (k & Hk & Ht & Hs & Hv).
  rewrite Ht, Hs, Hv.
  destruct (scorer_at_spec Hk) as (Hq & Hverdict & Hfix & Hround).
  rewrite Hverdict.
  assert (Hfin : isFinite (half k) = true).
  { pose (f := fun k => isFinite (half k)).
    apply (@forallb_Zrange f (-14) 29); [vm_compute; reflexivity | lia]. }
  split; [exact Hfin |].
  split; [| split; [| split; [| split]]].
  - intros H. rewrite Hq in H. unfold Qle in H. cbn in H.
    destruct (3 <=? k)%Z eqn:E; [reflexivity | lia].
  - intros H. rewrite Hq in H. unfold Qle in H. cbn in H.
    destruct (3 <=? k)%Z eqn:E; [lia |].
    destruct (k <=? -3)%Z eqn:E'; [reflexivity | lia].
  - intros [H1 H2]. rewrite Hq in H1, H2. unfold Qlt in H1, H2. cbn in H1, H2.
    destruct (3 <=? k)%Z eqn:E; [lia |].
    destruct (k <=? -3)%Z eqn:E'; [lia | reflexivity].
  - symmetry. exact Hfix.
  - exact Hround.
Qed.

Lemma decideSignal_verdict_and_rounding_witness :
  sig_verdict (decideSignal long_indicators) = "LEAN LONG"%string /\
  sig_score (decideSignal long_indicators) = toFixed 2 (fst (signal_tally long_indicators)) /\
  (to_Q (sig_score (decideSignal long_indicators)) == 3 # 2)%Q.
Proof.
  pose proof (decideSignal_verdict_and_rounding long_indicators)
    as (_ & Hlong & _ & _ & Hscore & Hround).
  split; [apply Hlong; vm_compute; discriminate |].
  split; [exact Hscore |].
  rewrite Hround. vm_compute. reflexivity.
Defined.

(** C8.  For every indicator set, running the seven checks in any order
    gives the same score as the order of the source. *)
Theorem score_order_invariant (i : indicator_set float)
        (checks : list (tally float -> tally float)) :
  Permutation (signal_checks i) checks ->
  fst (run_checks checks) = fst (signal_tally i).
Proof.
  intros Hperm.
  pose proof (signal_checks_add i) as Hadds.
  rewrite signal_tally_run.
  rewrite (@run_checks_half (signal_checks i)) by (assumption || (cbn; lia)).
  rewrite run_checks_half.
  - f_equal. symmetry. apply total_units_perm, Hperm.
  - apply (Permutation_Forall Hperm), Hadds.
  - rewrite <- (Permutation_length Hperm). cbn. lia.
Qed.

Lemma score_order_invariant_witness :
  fst (run_checks (rev (signal_checks sample_indicators)))
  = fst (signal_tally sample_indicators).
Proof.
  apply (@score_order_invariant sample_indicators
           (rev (signal_checks sample_indicators))).
  apply Permutation_rev.
Defined.

(** ** Comparison facts of binary64 *)

Lemma SFeqb_not_gt (x y : spec_float) : SFeqb x y = true -> SFltb y x = false.
Proof.
  unfold SFeqb, SFltb.
  destruct x as [sx | sx | | sx mx ex], y as [sy | sy | | sy my ey]; cbn;
    try discriminate; try reflexivity;
    try (destruct sx; discriminate); try (destruct sy; discriminate).
  all: destruct sx, sy; cbn; try discriminate; try reflexivity.
  all: destruct (Z.compare ex ey) eqn:E; try discriminate;
    apply Z.compare_eq in E; subst ey; rewrite Z.compare_refl;
    destruct (Pos.compare_cont Eq mx my) eqn:E'; try discriminate;
    apply Pos.compare_eq in E'; subst my;
    change (Pos.compare_cont Eq mx mx) with (Pos.compare mx mx);
    rewrite Pos.compare_refl; reflexivity.
Qed.

Lemma float_eq_not_gt (a b : float) : (a === b)%js = true -> (a >? b)%js = false.
Proof.
  cbn [neqb nltb float_number].
  rewrite FloatAxioms.eqb_spec, FloatAxioms.ltb_spec.
  apply SFeqb_not_gt.
Qed.

(** ** The trend check on a tie and on a zero *)

(** C10.  In the trend check, when EMA50 and EMA200 are both present and
    nonzero and equal, the contribution is -1 (the down-trend branch), and
    when either of them is exactly 0 the check is skipped and contributes
    nothing. *)
Theorem trend_tie_is_down_and_zero_is_skipped
        (i : indicator_set float) (st : tally float) :
  (forall a b, ema50 i = JNum a -> ema200 i = JNum b ->
     truthy (JNum a) = true -> truthy (JNum b) = true -> (a === b)%js = true ->
     check_trend i st = minus st (of_Z 1) "Trend DOWN (EMA50<EMA200)"
     /\ fst (check_trend i st) = (fst st - of_Z 1)%js) /\
  (forall z, (z === of_Z 0)%js = true ->
     ema50 i = JNum z \/ ema200 i = JNum z ->
     check_trend i st = st).
Proof.
  split.
  - intros a b Ha Hb Ta Tb Hab. unfold check_trend.
    rewrite Ha, Hb, Ta, Tb. cbn [andb toNumber].
    rewrite (float_eq_not_gt Hab). split; reflexivity.
  - intros z Hz [Hi | Hi]; unfold check_trend; rewrite Hi; cbn [truthy];
      rewrite Hz; cbn [negb andb]; [| rewrite andb_false_r]; reflexivity.
Qed.

Lemma trend_tie_is_down_and_zero_is_skipped_witness :
  (check_trend tie_indicators empty_tally
   = minus empty_tally (of_Z 1) "Trend DOWN (EMA50<EMA200)" /\
   fst (check_trend tie_indicators empty_tally) = (fst empty_tally - of_Z 1)%js) /\
  check_trend zero_indicators empty_tally = empty_tally.
Proof.
  split.
  - apply (proj1 (trend_tie_is_down_and_zero_is_skipped tie_indicators empty_tally)
             (of_Z 5) (of_Z 5)); reflexivity.
  - apply (proj2 (trend_tie_is_down_and_zero_is_skipped zero_indicators empty_tally)
             (of_Z 0)); [reflexivity | left; reflexivity].
Defined.

(** ** Inputs below the minimum length *)

Section ShortInputs.
Context {num : Type} `{JSNumber num} `{JSSqrt num}.

Lemma ltb_lt_true (n m : nat) : (n < m)%nat -> (n <? m)%nat = true.
Proof. intros Hlt. apply Nat.ltb_lt, Hlt. Qed.

(** C3.  Each of the nine indicator functions returns [null] on an input
    shorter than its minimum length: the period for SMA, EMA, the standard
    deviation, Bollinger and CCI, the period plus one for RSI and ADX,
    [slow + signal] for MACD and [kP + dP] for the stochastic.  The
    functions are total, so nothing is thrown. *)
Theorem short_input_is_null (arr highs lows : list num) (p : nat) :
  ((length arr < p)%nat -> SMA arr p = JNull) /\
  ((length arr < p)%nat -> EMA arr p = JNull) /\
  ((length arr < p)%nat -> stddev arr p = JNull) /\
  ((length arr < p + 1)%nat -> RSI arr p = JNull) /\
  (forall fast slow signal,
      (length arr < slow + signal)%nat -> MACD arr fast slow signal = None) /\
  (forall mult, (length arr < p)%nat -> Bollinger arr p mult = None) /\
  (forall kP dP smoothK,
      (length arr < kP + dP)%nat -> Stoch highs lows arr kP dP smoothK = None) /\
  ((length arr < p)%nat -> CCI highs lows arr p = JNull) /\
  ((length arr < p + 1)%nat -> ADX highs lows arr p = None).
Proof.
  repeat split; intros;
    unfold SMA, EMA, stddev, RSI, MACD, Bollinger, Stoch, CCI, ADX;
    rewrite ltb_lt_true by assumption; reflexivity.
Qed.
End ShortInputs.

Lemma short_input_is_null_witness :
  RSI (num := float) [of_Z 1; of_Z 2; of_Z 3] 14 = JNull /\
  MACD (num := float) [of_Z 1; of_Z 2; of_Z 3] 12 26 9 = None.
Proof.
  pose proof (short_input_is_null (num := float) [of_Z 1; of_Z 2; of_Z 3] [] [] 14)
    as (_ & _ & _ & Hrsi & Hmacd & _).
  split; [apply Hrsi | apply Hmacd]; cbn; lia.
Defined.

(** ** Division by zero in CCI and in the stochastic *)

(** C4.  On twenty flat candles, which meet every minimum length, the mean
    absolute deviation of the typical price is 0 and [CCI] divides by it:
    the result is the number NaN, not [null]; the stochastic divides by
    [hh - ll = 0] and its four values are NaN as well. *)
Theorem CCI_and_Stoch_divide_by_zero :
  CCI flat20 flat20 flat20 20 = JNum PrimFloat.nan /\
  CCI flat20 flat20 flat20 20 <> JNull /\
  Stoch flat20 flat20 flat20 14 3 3
  = Some {| stoch_K := JNum PrimFloat.nan; stoch_D := JNum PrimFloat.nan;
            stoch_prevK := JNum PrimFloat.nan; stoch_prevD := JNum PrimFloat.nan |}.
Proof.
  repeat split; try (vm_compute; reflexivity).
  vm_compute. discriminate.
Qed.

(** ** The live price cache keeps the last tick applied *)

Section CacheFacts.
Context {num : Type} `{JSNumber num}.

Lemma isFinite_self_eq (id : num) : isFinite id = true -> (id === id)%js = true.
Proof.
  unfold isFinite, is_nan. intros Hf.
  apply andb_true_iff in Hf. destruct Hf as [Hn _].
  destruct (id === id)%js; [reflexivity | discriminate].
Qed.

Lemma on_entry_valid (now : num) (m : prices num) (id : num) (e : string * payload num) :
  valid_tick id e -> lookup (on_entry now m e) id = tick_of now e.
Proof.
  intros (item & Hitem & Hid & Hfid & Hfp).
  destruct e as [pairKey pl]. cbn [snd fst] in *.
  unfold on_entry, tick_of. cbn [snd fst]. rewrite Hitem, Hid, Hfid, Hfp. cbn [andb].
  unfold lookup, store. rewrite (isFinite_self_eq _ Hfid). reflexivity.
Qed.
End CacheFacts.

Section CacheOrder.
Context {num : Type} `{JSNumber num}.

Lemma on_message_apply_ticks (now : num) (m : prices num)
      (entries : list (string * payload num)) :
  on_message now m (Some entries) = apply_ticks (map (fun e => (now, e)) entries) m.
Proof.
  unfold on_message, apply_ticks. revert m.
  induction entries as [| e entries IH]; intros m; cbn; [reflexivity | apply IH].
Qed.

(** C7, as the code has it.  After any finite sequence of stream entries
    ending in a valid tick for an asset, the cache holds for that asset
    exactly the tick applied last, whatever the timestamps say. *)
Theorem cache_holds_last_applied (m : prices num) (id : num)
        (ticks : list (num * (string * payload num)))
        (last_now : num) (last_entry : string * payload num) :
  valid_tick id last_entry ->
  lookup (apply_ticks (ticks ++ [(last_now, last_entry)]) m) id
  = tick_of last_now last_entry.
Proof.
  intros Hvalid. unfold apply_ticks. rewrite fold_left_app. cbn [fold_left fst snd].
  apply on_entry_valid, Hvalid.
Qed.

End CacheOrder.

Lemma tick_late_valid : valid_tick (of_Z 1) (snd tick_late).
Proof. eexists. repeat split; reflexivity. Qed.

Lemma tick_early_valid : valid_tick (of_Z 1) (snd tick_early).
Proof. eexists. repeat split; reflexivity. Qed.

Lemma cache_holds_last_applied_witness :
  lookup (apply_ticks ([tick_late] ++ [tick_early]) no_prices) (of_Z 1)
  = Some {| price := of_Z 11; ts := of_Z 1000; pair := "BTC/USD"%string |}.
Proof.
  apply (@cache_holds_last_applied float _ no_prices (of_Z 1) [tick_late]
           (fst tick_early) (snd tick_early)).
  eexists. repeat split; reflexivity.
Defined.

(** The late tick followed by the early one: both are valid ticks for asset
    1, and the cache ends with the early one, whose timestamp is not the
    latest. *)
Lemma cache_not_latest_timestamp :
  valid_tick (of_Z 1) (snd tick_late) /\ valid_tick (of_Z 1) (snd tick_early) /\
  ~ holds_latest_timestamp (of_Z 1) [tick_late; tick_early].
Proof.
  split; [exact tick_late_valid |]. split; [exact tick_early_valid |].
  intros Hclaim.
  specialize (Hclaim {| price := of_Z 11; ts := of_Z 1000; pair := "BTC/USD"%string |}
                     eq_refl tick_late
                     {| price := of_Z 10; ts := of_Z 2000; pair := "BTC/USD"%string |}
                     (or_introl eq_refl) eq_refl).
  vm_compute in Hclaim. discriminate.
Qed.

(** ** The aggregator and the outcome check at binary64 *)

Lemma sum_step_all (w : Z) (j k : Z) :
  (1 <= w <= 3)%Z -> (-42 <= j <= 42)%Z -> (-14 <= k <= 14)%Z ->
  (half j + half k * of_Z w)%js = half (j + w * k).
Proof.
  intros Hw Hj Hk. apply feq_eq.
  pose (f := fun w => forallb (fun j => forallb (fun k => sum_step w j k)
                                          (Zrange (-14) 29)) (Zrange (-42) 85)).
  assert (Hf : f w = true).
  { apply (@forallb_Zrange f 1 3); [vm_compute; reflexivity | lia]. }
  unfold f in Hf.
  assert (Hg : forallb (fun k => sum_step w j k) (Zrange (-14) 29) = true).
  { apply (@forallb_Zrange
             (fun j => forallb (fun k => sum_step w j k) (Zrange (-14) 29))
             (-42) 85); [exact Hf | lia]. }
  apply (@forallb_Zrange (fun k => sum_step w j k) (-14) 29); [exact Hg | lia].
Qed.

(** The weighted sum of three scores is an exact number of halves. *)
Lemma ws_at_sum (k1 k2 k3 : Z) :
  (-14 <= k1 <= 14)%Z -> (-14 <= k2 <= 14)%Z -> (-14 <= k3 <= 14)%Z ->
  ws_at k1 k2 k3 = (half (k1 + 2 * k2 + 3 * k3) / totalW)%js.
Proof.
  intros H1 H2 H3. unfold ws_at. rewrite <- half_0.
  rewrite (@sum_step_all 1 0 k1) by lia.
  rewrite (@sum_step_all 2 (0 + 1 * k1) k2) by lia.
  rewrite (@sum_step_all 3 (0 + 1 * k1 + 2 * k2) k3) by lia.
  do 2 f_equal. lia.
Qed.

Lemma exact_at_sum (k1 k2 k3 : Z) :
  (-14 <= k1 <= 14)%Z -> (-14 <= k2 <= 14)%Z -> (-14 <= k3 <= 14)%Z ->
  (exact_at k1 k2 k3 == (k1 + 2 * k2 + 3 * k3) # 12)%Q.
Proof.
  intros H1 H2 H3. unfold exact_at.
  pose proof (proj1 (scorer_at_spec H1)) as E1.
  pose proof (proj1 (scorer_at_spec H2)) as E2.
  pose proof (proj1 (scorer_at_spec H3)) as E3.
  rewrite E1, E2, E3.
  remember (k1 + 2 * k2 + 3 * k3)%Z as K eqn:HK.
  unfold Qeq, Qdiv, Qmult, Qplus, Qinv. cbn. lia.
Qed.

Lemma aggregate_at_all (K : Z) : (-84 <= K <= 84)%Z -> aggregate_at K = true.
Proof.
  intros HK. apply (@forallb_Zrange aggregate_at (-84) 169); [vm_compute; reflexivity | lia].
Qed.



Lemma aggregate_at_spec (k1 k2 k3 : Z) :
  (-14 <= k1 <= 14)%Z -> (-14 <= k2 <= 14)%Z -> (-14 <= k3 <= 14)%Z ->
  let ws := ws_at k1 k2 k3 in
  let ex := exact_at k1 k2 k3 in
  let w := toFixed 3 ws in
  isFinite ws = true /\
  (Qabs (to_Q ws - ex) <= 1 # 1000000000)%Q /\
  globalVerdict ws =
    (if Qle_bool 1 (to_Q ws) then "GLOBAL: LEAN LONG"
     else if Qle_bool (to_Q ws) (-1) then "GLOBAL: LEAN SHORT" else "NEUTRAL / WAIT")%string /\
  ((1 <= ex)%Q <-> (1 <= to_Q ws)%Q) /\
  ((ex <= -1)%Q <-> (to_Q ws <= -1)%Q) /\
  Math_sign w = sign_of_Q (to_Q w) /\
  sign_cases (Math_sign w) = true.
Proof.
  intros H1 H2 H3. cbv zeta.
  rewrite (ws_at_sum H1 H2 H3), (exact_at_sum H1 H2 H3).
  set (K := (k1 + 2 * k2 + 3 * k3)%Z).
  assert (HK : (-84 <= K <= 84)%Z) by (unfold K; lia).
  pose proof (aggregate_at_all HK) as H.
  unfold aggregate_at in H. cbv zeta in H. rewrite !andb_true_iff in H.
  destruct H as [[[[[[Ha Hb] Hc] Hd] He] Hf] Hg].
  apply Bool.eqb_prop in Hd, He.
  repeat split.
  - exact Ha.
  - apply Qle_bool_iff, Hb.
  - apply String.eqb_eq, Hc.
  - intros F. apply Qle_bool_iff. rewrite <- Hd. apply Qle_bool_iff, F.
  - intros F. apply Qle_bool_iff. rewrite Hd. apply Qle_bool_iff, F.
  - intros F. apply Qle_bool_iff. rewrite <- He. apply Qle_bool_iff, F.
  - intros F. apply Qle_bool_iff. rewrite He. apply Qle_bool_iff, F.
  - apply feq_eq, Hf.
  - exact Hg.
Qed.





(** ** Order of the appended records *)

Section Ordering.
Context {num : Type} `{JSNumber num} `{JSSqrt num}.

Lemma analysis_ids_app (l l' : list (appended num)) :
  analysis_ids (l ++ l') = analysis_ids l ++ analysis_ids l'.
Proof. apply flat_map_app. Qed.

Lemma outcome_ids_app (l l' : list (appended num)) :
  outcome_ids (l ++ l') = outcome_ids l ++ outcome_ids l'.
Proof. apply flat_map_app. Qed.

Lemma In_analysis_ids (k : nat) (r : analysis num) (log : list (appended num)) :
  In (AppendAnalysis k r) log -> In k (analysis_ids log).
Proof.
  intros Hin. unfold analysis_ids. apply in_flat_map.
  exists (AppendAnalysis k r). split; [exact Hin | left; reflexivity].
Qed.

Lemma analyzeAsset_record fetch (livePrices : prices num) now assetId r c :
  analyzeAsset fetch livePrices now assetId = Some (r, c) -> p_record c = r.
Proof.
  unfold analyzeAsset. destruct (collect fetch TIMEFRAMES); [| discriminate].
  intros E. injection E as <- <-. reflexivity.
Qed.

(** A log extended by one record: an outcome in it is the new record or
    was there before. *)
Lemma split_snoc (log : list (appended num)) (e : appended num) l1 k o l2 :
  log ++ [e] = l1 ++ AppendOutcome k o :: l2 ->
  (l2 = [] /\ log = l1 /\ e = AppendOutcome k o) \/
  (exists l2', l2 = l2' ++ [e] /\ log = l1 ++ AppendOutcome k o :: l2').
Proof.
  intros E. destruct l2 as [| x l2] using rev_ind.
  - left. apply app_inj_tail in E. destruct E as [-> ->]. repeat split.
  - right. exists l2. clear IHl2.
    rewrite app_comm_cons, app_assoc in E.
    apply app_inj_tail in E. destruct E as [-> ->]. split; reflexivity.
Qed.

Lemma traced_snoc_analysis (log : list (appended num)) k r :
  traced log -> traced (log ++ [AppendAnalysis k r]).
Proof.
  intros Ht l1 k' o l2 E.
  destruct (split_snoc _ _ _ _ _ _ E) as [(_ & _ & F) | (l2' & _ & E')].
  - discriminate.
  - apply (Ht _ _ _ _ E').
Qed.

Lemma traced_snoc_outcome (log : list (appended num)) k c livePrices now2 :
  traced log -> In (AppendAnalysis k (p_record c)) log ->
  traced (log ++ [AppendOutcome k (check_outcome c livePrices now2)]).
Proof.
  intros Ht Hin l1 k' o l2 E.
  destruct (split_snoc _ _ _ _ _ _ E) as [(_ & <- & F) | (l2' & _ & E')].
  - injection F as <- <-. exists c, livePrices, now2. split; [exact Hin | reflexivity].
  - apply (Ht _ _ _ _ E').
Qed.

Lemma step_invariant (w w' : world num) : invariant w -> step w w' -> invariant w'.
Proof.
  intros (Hids & Hnodup & Hlinked & Htraced) Hstep.
  assert (Hbound : forall k, In k (map fst (w_timers w)) -> (k < w_next w)%nat).
  { intros k Hin. apply in_map_iff in Hin. destruct Hin as ([k' c] & <- & Hin).
    apply Hlinked, In_analysis_ids in Hin. rewrite Hids in Hin.
    apply in_seq in Hin. cbn [fst]. lia. }
  destruct Hstep as [w now msg | w fetch now assetId r c Hrun | w now2 before k c after Ht];
    unfold invariant; cbn [w_log w_timers w_next w_prices].
  - repeat split; assumption.
  - repeat split.
    + rewrite analysis_ids_app, Hids, seq_S. reflexivity.
    + rewrite outcome_ids_app, map_app. cbn. rewrite app_nil_r, <- app_assoc.
      apply (Permutation_NoDup (Permutation_middle _ _ _)). cbn.
      apply NoDup_cons; [| exact Hnodup].
      intros Hin. apply in_app_or in Hin. destruct Hin as [Hin | Hin].
      * apply Hbound in Hin. lia.
      * pose proof (Htraced) as Ht'.
        unfold outcome_ids in Hin. apply in_flat_map in Hin.
        destruct Hin as ([k' r' | k' o'] & Hin & Hk); cbn in Hk; [contradiction |].
        destruct Hk as [-> | []].
        apply in_split in Hin. destruct Hin as (l1 & l2 & E).
        destruct (Ht' _ _ _ _ E) as (c' & _ & _ & Hin' & _).
        assert (Hlog : In (AppendAnalysis (w_next w) (p_record c')) (w_log w))
          by (rewrite E; apply in_or_app; left; exact Hin').
        apply In_analysis_ids in Hlog. rewrite Hids in Hlog.
        apply in_seq in Hlog. lia.
    + intros k' c' Hin. apply in_app_or in Hin. apply in_or_app.
      destruct Hin as [Hin | [E | []]].
      * left. apply Hlinked, Hin.
      * right. injection E as <- <-. rewrite (analyzeAsset_record _ _ _ _ Hrun).
        left. reflexivity.
    + apply traced_snoc_analysis, Htraced.
  - rewrite Ht in *. repeat split.
    + rewrite analysis_ids_app. cbn. rewrite app_nil_r. exact Hids.
    + rewrite outcome_ids_app. cbn.
      rewrite map_app in *. cbn [map fst] in Hnodup.
      rewrite <- app_assoc in Hnodup. cbn in Hnodup.
      apply NoDup_remove in Hnodup. destruct Hnodup as [Hnd Hnotin].
      rewrite app_assoc in Hnd, Hnotin. rewrite app_assoc.
      apply (Permutation_NoDup (Permutation_cons_append _ _)).
      apply NoDup_cons; assumption.
    + intros k' c' Hin. apply in_or_app. left. apply Hlinked.
      apply in_app_or in Hin. apply in_or_app.
      destruct Hin as [Hin | Hin]; [left | right; right]; exact Hin.
    + apply traced_snoc_outcome; [exact Htraced |].
      apply Hlinked. apply in_or_app. right. left. reflexivity.
Qed.

Lemma reachable_invariant (w : world num) : reachable w -> invariant w.
Proof.
  induction 1 as [| w w' _ IH Hstep].
  - unfold invariant, start, traced. cbn. repeat split.
    + constructor.
    + intros k c [].
    + intros [| x l1] k o l2 E; discriminate.
  - apply (step_invariant IH Hstep).
Qed.

Lemma check_outcome_no_price (c : pending num) (livePrices : prices num) (now2 : Z) :
  lookup livePrices (p_assetId c) = None \/ p_spot c = JNull ->
  o_wasCorrect (check_outcome c livePrices now2) = None.
Proof.
  unfold check_outcome. cbn [o_wasCorrect].
  intros [E | E]; rewrite E; cbn [not_null andb]; [rewrite andb_false_r |]; reflexivity.
Qed.

(** C9.  In every state the process can reach: no serial number has two
    outcomes in the log; every outcome in the log comes after the
    analysis with its serial number and is the result of that analysis's
    timer; and every pending timer can fire whatever the cache holds,
    appending an outcome, which is indeterminate when the price is
    missing at check time or was missing at analysis time. *)
Theorem outcome_after_analysis_at_most_once (w : world num) :
  reachable w ->
  NoDup (outcome_ids (w_log w)) /\
  traced (w_log w) /\
  (forall before k c after now2,
      w_timers w = before ++ (k, c) :: after ->
      let o := check_outcome c (w_prices w) now2 in
      step w {| w_prices := w_prices w;
                w_timers := before ++ after;
                w_log := w_log w ++ [AppendOutcome k o];
                w_next := w_next w |} /\
      (lookup (w_prices w) (p_assetId c) = None \/ p_spot c = JNull ->
       o_wasCorrect o = None)).
Proof.
  intros Hreach.
  destruct (reachable_invariant Hreach) as (_ & Hnodup & _ & Htraced).
  split; [apply (NoDup_app_remove_l _ _ Hnodup) |].
  split; [exact Htraced |].
  intros before k c after now2 Ht. cbv zeta. split.
  - apply step_fire, Ht.
  - apply check_outcome_no_price.
Qed.
End Ordering.

Lemma sample_world_reachable : reachable sample_world.
Proof.
  unfold sample_world.
  destruct (analyzeAsset sample_fetch no_prices 0 (of_Z 1)) as [[r c] |] eqn:E;
    [| apply reach_start].
  pose (w1 := {| w_prices := no_prices (num := float); w_timers := [(0%nat, c)];
                 w_log := [AppendAnalysis 0 r]; w_next := 1 |}).
  pose (w2 := {| w_prices := no_prices (num := float); w_timers := [(0%nat, c); (1%nat, c)];
                 w_log := [AppendAnalysis 0 r; AppendAnalysis 1 r]; w_next := 2 |}).
  apply reach_step with (w := w2).
  - apply reach_step with (w := w1).
    + apply reach_step with (w := start); [apply reach_start |].
      exact (step_analyze start sample_fetch 0%Z (of_Z 1) E).
    + exact (step_analyze w1 sample_fetch 0%Z (of_Z 1) E).
  - exact (@step_fire float _ _ w2 3600000%Z [] 0%nat c [(1%nat, c)] eq_refl).
Qed.

Lemma outcome_after_analysis_at_most_once_witness :
  NoDup (outcome_ids (w_log sample_world)) /\
  traced (w_log sample_world) /\
  (forall before k c after now2,
      w_timers sample_world = before ++ (k, c) :: after ->
      let o := check_outcome c (w_prices sample_world) now2 in
      step sample_world
           {| w_prices := w_prices sample_world;
              w_timers := before ++ after;
              w_log := w_log sample_world ++ [AppendOutcome k o];
              w_next := w_next sample_world |} /\
      (lookup (w_prices sample_world) (p_assetId c) = None \/ p_spot c = JNull ->
       o_wasCorrect o = None)).
Proof.
  apply (@outcome_after_analysis_at_most_once float _ _ sample_world).
  exact sample_world_reachable.
Defined.

(** ** The range of RSI in exact arithmetic *)

Section RSIRange.
Local Open Scope Q_scope.















End RSIRange.



Section RSIGeneric.
Context {num : Type} `{JSNumber num}.

End RSIGeneric.

(** The scenario of the specification: RSI(14) of the twenty closes is
    strictly between 50 and 100. *)
Example RSI_scenario :
  exists r, RSI scenario_closes 14 = JNum r /\
            (of_Z 50 <? r)%js = true /\ (r <? of_Z 100)%js = true.
Proof. eexists. repeat split; vm_compute; reflexivity. Qed.

(** The scenario of the specification: at position 0.95 within the bands
    the Bollinger check takes exactly 0.5 off the score. *)
Example bollinger_scenario :
  let i := {| rsi := JNull; macd := None;
              bb := Some {| bb_mid := JNum (of_Z 50); bb_upper := of_Z 100;
                            bb_lower := of_Z 0 |};
              adx := None; stoch := None; cci := JNull; ema50 := JNull; ema200 := JNull;
              close := JNum (of_Z 95) |} in
  check_bb i empty_tally = (PrimFloat.opp (dec 5 1), ["Near upper Bollinger"%string]).
Proof. vm_compute. reflexivity. Qed.

(** The scenarios of the specification for the global verdict: scores 2, 1
    and 1 give 7/6 and LEAN LONG; a weighted score of exactly 1 is LEAN
    LONG; 11/12 is not. *)
Example global_verdict_scenarios :
  globalVerdict (ws_at 4 2 2) = "GLOBAL: LEAN LONG"%string /\
  ws_at 2 2 2 = of_Z 1 /\ globalVerdict (ws_at 2 2 2) = "GLOBAL: LEAN LONG"%string /\
  globalVerdict (ws_at 1 2 2) = "NEUTRAL / WAIT"%string.
Proof. repeat split; vm_compute; reflexivity. Qed.

(** ** Further properties of the indicators *)

Section IndicatorFacts.
Context {num : Type} `{JSNumber num}.

Lemma skipn_nth_cons (l : list num) (d : num) (a : nat) :
  (a < length l)%nat -> skipn a l = nth a l d :: skipn (S a) l.
Proof.
  revert l. induction a as [| a IH]; intros [| x l] Ha; cbn in *; try lia.
  - reflexivity.
  - apply IH. lia.
Qed.

(** A loop over indices that reads [arr[i]] is a fold over the slice. *)
Lemma fold_seq_nth {S : Type} (f : S -> num -> S) (l : list num) (d : num)
      (n a : nat) (z : S) :
  (a + n <= length l)%nat ->
  fold_left (fun s i => f s (nth i l d)) (seq a n) z
  = fold_left f (firstn n (skipn a l)) z.
Proof.
  revert a z. induction n as [| n IH]; intros a z Hlen; [reflexivity |].
  rewrite (@skipn_nth_cons l d a) by lia. cbn [seq fold_left firstn].
  rewrite IH by lia. reflexivity.
Qed.

Lemma fold_left_ext_in {S I : Type} (f g : S -> I -> S) (l : list I) (z : S) :
  (forall s i, In i l -> f s i = g s i) -> fold_left f l z = fold_left g l z.
Proof.
  revert z. induction l as [| i l IH]; intros z Hext; [reflexivity |].
  cbn. rewrite (Hext z i) by (left; reflexivity).
  apply IH. intros s j Hj. apply Hext. right. exact Hj.
Qed.

(** [SMA] is the sum of the last [p] elements, added left to right from
    0, over [p]. *)
Lemma SMA_sum (arr : list num) (p : nat) :
  (p <= length arr)%nat ->
  SMA arr p = JNum (sum (skipn (length arr - p) arr) / of_nat p)%js.
Proof.
  intros Hp. unfold SMA, for_range, sum, get.
  replace (length arr <? p)%nat with false by (symmetry; apply Nat.ltb_ge; exact Hp).
  replace (length arr - (length arr - p))%nat with p by lia.
  rewrite (@fold_seq_nth num nadd arr NaN p (length arr - p)) by lia.
  rewrite firstn_all2; [reflexivity |]. rewrite length_skipn. lia.
Qed.

(** X1.  [SMA] reads only the last [p] elements: whatever comes before a
    window of [p] elements does not change the result, at any number
    instance (so bit for bit on doubles). *)
Theorem SMA_reads_last_window (before window : list num) (p : nat) :
  length window = p -> SMA (before ++ window) p = SMA window p.
Proof.
  intros Hw.
  rewrite (@SMA_sum (before ++ window) p) by (rewrite length_app; lia).
  rewrite (@SMA_sum window p) by lia.
  rewrite length_app, Hw.
  replace (length before + p - p)%nat with (length before) by lia.
  rewrite skipn_app, skipn_all, Nat.sub_diag, Nat.sub_diag. reflexivity.
Qed.

Lemma slice_0_prefix (arr : list num) (x : num) (p : nat) :
  (p <= length arr)%nat -> slice 0 p (arr ++ [x]) = slice 0 p arr.
Proof.
  intros Hp. unfold slice. cbn [skipn]. rewrite Nat.sub_0_r.
  rewrite firstn_app. replace (p - length arr)%nat with 0%nat by lia.
  cbn [firstn]. apply app_nil_r.
Qed.

(** X2.  [EMA] on exactly [p] elements is their [SMA], and each further
    element [x] updates it by [x * k + ema * (1 - k)] with
    [k = 2 / (p + 1)], at any number instance. *)
Theorem EMA_seed_and_recurrence (arr : list num) (x : num) (p : nat) :
  (length arr = p -> EMA arr p = SMA arr p) /\
  ((p <= length arr)%nat ->
   EMA (arr ++ [x]) p
   = JNum (x * (of_Z 2 / of_nat (p + 1))
           + toNumber (EMA arr p) * (of_Z 1 - of_Z 2 / of_nat (p + 1)))%js).
Proof.
  split.
  - intros Hlen. unfold EMA, for_range, slice.
    replace (length arr <? p)%nat with false by (symmetry; apply Nat.ltb_ge; lia).
    cbn [skipn]. rewrite Nat.sub_0_r, firstn_all2 by lia.
    replace (length arr - p)%nat with 0%nat by lia. cbn [seq fold_left].
    rewrite (@SMA_sum arr p) by lia. reflexivity.
  - intros Hp. unfold EMA, for_range.
    rewrite length_app. cbn [length].
    replace (length arr + 1 <? p)%nat with false by (symmetry; apply Nat.ltb_ge; lia).
    replace (length arr <? p)%nat with false by (symmetry; apply Nat.ltb_ge; lia).
    rewrite slice_0_prefix by exact Hp.
    replace (length arr + 1 - p)%nat with (S (length arr - p)) by lia.
    rewrite seq_S, fold_left_app. cbn [fold_left toNumber].
    replace (p + (length arr - p))%nat with (length arr) by lia.
    unfold get at 1. rewrite nth_middle. do 3 f_equal.
    apply fold_left_ext_in. intros s i Hi. apply in_seq in Hi.
    unfold get. rewrite app_nth1 by lia. reflexivity.
Qed.
End IndicatorFacts.

Lemma SMA_reads_last_window_witness :
  SMA ([1; 2; 3]%float ++ [4; 5]%float) 2 = SMA [4; 5]%float 2.
Proof.
  apply (@SMA_reads_last_window float _ [1; 2; 3]%float [4; 5]%float 2). reflexivity.
Defined.

Lemma EMA_seed_and_recurrence_witness :
  EMA [1; 2; 3]%float 3 = SMA [1; 2; 3]%float 3 /\
  EMA ([1; 2; 3]%float ++ [7]%float) 3
  = JNum (7%float * (of_Z 2 / of_nat (3 + 1))
          + toNumber (EMA [1; 2; 3]%float 3) * (of_Z 1 - of_Z 2 / of_nat (3 + 1)))%js.
Proof.
  split.
  - apply (proj1 (@EMA_seed_and_recurrence float _ [1; 2; 3]%float 7%float 3)). reflexivity.
  - apply (proj2 (@EMA_seed_and_recurrence float _ [1; 2; 3]%float 7%float 3)). cbn. lia.
Defined.

(** ** Moving averages and RSI in exact arithmetic *)

Section ExactIndicators.
Local Open Scope Q_scope.








End ExactIndicators.


Section ExactRSI.
Local Open Scope Q_scope.






End ExactRSI.


(** ** How many candles each signal needs *)

Section SeriesLengths.
Context {num : Type} `{JSNumber num}.

Lemma fold_left_length_grows {S I A : Type} (proj : S -> list A) (body : S -> I -> S)
      (l : list I) (s : S) :
  (forall s i, length (proj (body s i)) = Datatypes.S (length (proj s))) ->
  length (proj (fold_left body l s)) = (length (proj s) + length l)%nat.
Proof.
  intros Hstep. revert s. induction l as [| i l IH]; intros s; cbn [fold_left length].
  - lia.
  - rewrite IH, Hstep. lia.
Qed.

Lemma MACD_series_length (closes : list num) (fast slow : nat) :
  length (MACD_series closes fast slow) = (length closes - Nat.max fast slow)%nat.
Proof.
  unfold MACD_series, for_range.
  match goal with
  | |- context [fold_left ?body ?l ?init] =>
      pose proof (@fold_left_length_grows _ _ _
                    (fun s : jsval num * jsval num * list num => snd s) body l init) as Hlen
  end.
  cbv beta in Hlen.
  match type of Hlen with
  | _ -> length (snd ?t) = _ => destruct t as [[eF eS] series]
  end.
  cbn [snd] in Hlen. rewrite Hlen.
  - cbn [length]. rewrite length_seq. lia.
  - intros [[eF' eS'] series'] i. cbn [snd]. rewrite length_app. cbn [length]. lia.
Qed.

Lemma smooth_length (arr : list num) (p : nat) :
  length (smooth arr p) = (length arr - (p - 1))%nat.
Proof.
  unfold smooth, for_range.
  rewrite (@fold_left_length_grows _ _ _ (fun s : list num => s)).
  - cbn [length]. rewrite length_seq. lia.
  - intros s i. rewrite length_app. cbn [length]. lia.
Qed.

Lemma at_last_not_null (l : list num) :
  not_null (at_last l) = true <-> (1 <= length l)%nat.
Proof.
  unfold at_last. rewrite <- (length_rev l).
  destruct (rev l) as [| x r]; cbn; split; intros; try lia; try discriminate; reflexivity.
Qed.

Lemma at_prev_not_null (l : list num) :
  not_null (or_null (at_prev l)) = true <-> (2 <= length l)%nat.
Proof.
  unfold at_prev. rewrite <- (length_rev l).
  destruct (rev l) as [| x [| y r]]; cbn; split; intros; try lia; try discriminate;
    reflexivity.
Qed.

Lemma EMA_not_null (arr : list num) (p : nat) :
  not_null (EMA arr p) = true <-> (p <= length arr)%nat.
Proof.
  unfold EMA. destruct (length arr <? p)%nat eqn:E; cbn [not_null].
  - apply Nat.ltb_lt in E. split; [discriminate | lia].
  - apply Nat.ltb_ge in E. split; [intros _; exact E | reflexivity].
Qed.

Lemma removelast_length (l : list num) : length (removelast l) = (length l - 1)%nat.
Proof.
  induction l as [| x [| y l] IH]; cbn [removelast length] in *; lia.
Qed.

(** X5.  With [fast <= slow] and a signal period of at least 1, [MACD]
    at exactly [slow + signal] closes returns its line and its signal as
    numbers but no previous histogram ([prevHist] is [null]); from one more
    close on, [prevHist] is a number. *)
Theorem MACD_previous_histogram (closes : list num) (fast slow signal : nat) :
  (fast <= slow)%nat -> (1 <= signal)%nat -> (slow + signal <= length closes)%nat ->
  exists m,
    MACD closes fast slow signal = Some m /\
    not_null (macd_macd m) = true /\ not_null (macd_signal m) = true /\
    (not_null (macd_prevHist m) = true <-> (slow + signal + 1 <= length closes)%nat).
Proof.
  intros Hfs Hsig Hlen. unfold MACD.
  replace (length closes <? slow + signal)%nat with false
    by (symmetry; apply Nat.ltb_ge; exact Hlen).
  eexists. split; [reflexivity |]. cbn [macd_macd macd_signal macd_prevHist].
  pose proof (MACD_series_length closes fast slow) as Hser.
  rewrite Nat.max_r in Hser by exact Hfs.
  set (series := MACD_series closes fast slow) in *.
  pose proof (removelast_length series) as Hprev.
  split; [apply at_last_not_null; lia |].
  split; [apply EMA_not_null; lia |].
  destruct (removelast series) as [| y prev] eqn:Eprev.
  - cbn [not_null andb length] in *. split; [discriminate | lia].
  - rewrite <- Eprev in *. clear Eprev.
    destruct (not_null (at_last (removelast series))) eqn:E1;
      destruct (not_null (EMA (removelast series) signal)) eqn:E2; cbn [andb not_null].
    + apply EMA_not_null in E2. split; [lia | reflexivity].
    + split; [discriminate |]. intros Hn.
      assert (F : not_null (EMA (removelast series) signal) = true)
        by (apply EMA_not_null; lia).
      congruence.
    + split; [discriminate |]. intros Hn.
      assert (F : not_null (at_last (removelast series)) = true)
        by (apply at_last_not_null; lia).
      congruence.
    + split; [discriminate |]. intros Hn.
      assert (F : not_null (at_last (removelast series)) = true)
        by (apply at_last_not_null; lia).
      congruence.
Qed.

(** The number of values of %D that [Stoch] computes. *)
Lemma Stoch_D_count (highs lows closes : list num) (kP dP smoothK : nat) :
  (length closes < kP + dP)%nat /\ Stoch highs lows closes kP dP smoothK = None
  \/ exists s dArr,
      Stoch highs lows closes kP dP smoothK = Some s /\
      stoch_D s = at_last dArr /\ stoch_prevD s = or_null (at_prev dArr) /\
      length dArr = (length closes - (kP - 1) - (smoothK - 1) - (dP - 1))%nat.
Proof.
  unfold Stoch. destruct (length closes <? kP + dP)%nat eqn:E.
  - left. apply Nat.ltb_lt in E. split; [exact E | reflexivity].
  - right. eexists _, _. split; [reflexivity |].
    cbn [stoch_D stoch_prevD]. split; [reflexivity |]. split; [reflexivity |].
    rewrite !smooth_length. unfold for_range.
    rewrite (@fold_left_length_grows _ _ _ (fun s : list num => s)).
    + cbn [length]. rewrite length_seq. lia.
    + intros s i. rewrite length_app. cbn [length]. lia.
Qed.

(** X6.  With periods of at least 1, [Stoch] past its guard of
    [kP + dP] closes returns %D as a number only from
    [kP + smoothK + dP - 2] closes on, and the previous %D only from
    [kP + smoothK + dP - 1] closes on (18 and 19 for the periods 14, 3, 3,
    while the guard admits 17). *)
Theorem Stoch_needs_more_than_its_guard
        (highs lows closes : list num) (kP dP smoothK : nat) :
  (1 <= kP)%nat -> (1 <= dP)%nat -> (1 <= smoothK)%nat ->
  (kP + dP <= length closes)%nat ->
  exists s,
    Stoch highs lows closes kP dP smoothK = Some s /\
    (not_null (stoch_D s) = true <-> (kP + smoothK + dP <= length closes + 2)%nat) /\
    (not_null (stoch_prevD s) = true <-> (kP + smoothK + dP <= length closes + 1)%nat).
Proof.
  intros HkP HdP HsK Hlen.
  destruct (Stoch_D_count highs lows closes kP dP smoothK)
    as [[Hshort _] | (s & dArr & Hs & HD & HprevD & Hcount)]; [lia |].
  exists s. split; [exact Hs |]. rewrite HD, HprevD.
  rewrite at_last_not_null, at_prev_not_null, Hcount. split; lia.
Qed.
End SeriesLengths.

Lemma MACD_previous_histogram_witness :
  exists m,
    MACD (map c_close (candles_around (scenario_closes ++ scenario_closes))) 12 26 9 = Some m /\
    not_null (macd_macd m) = true /\ not_null (macd_signal m) = true /\
    (not_null (macd_prevHist m) = true
     <-> (26 + 9 + 1
          <= length (map c_close (candles_around (scenario_closes ++ scenario_closes))))%nat).
Proof.
  apply (@MACD_previous_histogram float _); cbn; lia.
Defined.

Lemma Stoch_needs_more_than_its_guard_witness :
  exists s,
    Stoch flat20 flat20 (firstn 17 flat20) 14 3 3 = Some s /\
    (not_null (stoch_D s) = true <-> (14 + 3 + 3 <= length (firstn 17 flat20) + 2)%nat) /\
    (not_null (stoch_prevD s) = true <-> (14 + 3 + 3 <= length (firstn 17 flat20) + 1)%nat).
Proof.
  apply (@Stoch_needs_more_than_its_guard float _); cbn; lia.
Defined.

Section EnoughCandles.
Context {num : Type} `{JSNumber num} `{JSSqrt num}.

Lemma check_trend_silent (rows : list (candle num)) (st : tally num) :
  (length rows < 200)%nat -> check_trend (indicators_of rows) st = st.
Proof.
  intros Hlen. unfold check_trend, indicators_of. cbn [ema50 ema200].
  unfold EMA at 2. rewrite length_map.
  replace (length rows <? 200)%nat with true by (symmetry; apply Nat.ltb_lt; exact Hlen).
  cbn [truthy]. rewrite andb_false_r. reflexivity.
Qed.

Lemma check_rsi_silent (rows : list (candle num)) (st : tally num) :
  (length rows < 15)%nat -> check_rsi (indicators_of rows) st = st.
Proof.
  intros Hlen. unfold check_rsi, indicators_of. cbn [rsi].
  unfold RSI. rewrite length_map.
  replace (length rows <? 14 + 1)%nat with true by (symmetry; apply Nat.ltb_lt; lia).
  reflexivity.
Qed.

Lemma check_macd_silent (rows : list (candle num)) (st : tally num) :
  (length rows < 35)%nat -> check_macd (indicators_of rows) st = st.
Proof.
  intros Hlen. unfold check_macd, indicators_of. cbn [macd].
  unfold MACD. rewrite length_map.
  replace (length rows <? 26 + 9)%nat with true by (symmetry; apply Nat.ltb_lt; lia).
  reflexivity.
Qed.

Lemma check_bb_silent (rows : list (candle num)) (st : tally num) :
  (length rows < 20)%nat -> check_bb (indicators_of rows) st = st.
Proof.
  intros Hlen. unfold check_bb, indicators_of. cbn [bb].
  unfold Bollinger. rewrite length_map.
  replace (length rows <? 20)%nat with true by (symmetry; apply Nat.ltb_lt; lia).
  reflexivity.
Qed.

Lemma check_adx_silent (rows : list (candle num)) (st : tally num) :
  (length rows < 15)%nat -> check_adx (indicators_of rows) st = st.
Proof.
  intros Hlen. unfold check_adx, indicators_of. cbn [adx].
  unfold ADX. rewrite length_map.
  replace (length rows <? 14 + 1)%nat with true by (symmetry; apply Nat.ltb_lt; lia).
  reflexivity.
Qed.

Lemma check_stoch_silent (rows : list (candle num)) (st : tally num) :
  (length rows < 19)%nat -> check_stoch (indicators_of rows) st = st.
Proof.
  intros Hlen. unfold check_stoch, indicators_of. cbn [stoch].
  destruct (Stoch_D_count (map c_high rows) (map c_low rows) (map c_close rows) 14 3 3)
    as [[_ ->] | (s & dArr & -> & _ & HprevD & Hcount)]; [reflexivity |].
  rewrite length_map in Hcount.
  assert (Hnull : not_null (stoch_prevD s) = false).
  { destruct (not_null (stoch_prevD s)) eqn:E; [| reflexivity].
    rewrite HprevD in E. apply at_prev_not_null in E. lia. }
  rewrite Hnull, andb_false_r. reflexivity.
Qed.

Lemma check_cci_silent (rows : list (candle num)) (st : tally num) :
  (length rows < 20)%nat -> check_cci (indicators_of rows) st = st.
Proof.
  intros Hlen. unfold check_cci, indicators_of. cbn [cci].
  unfold CCI. rewrite length_map.
  replace (length rows <? 20)%nat with true by (symmetry; apply Nat.ltb_lt; lia).
  reflexivity.
Qed.

(** X7.  On the indicators that [analyzeOneTF] computes from a history,
    each check leaves score and notes unchanged below its number of
    candles: 200 for the trend, 15 for RSI and ADX, 35 for MACD, 20 for
    Bollinger and CCI, and 19 for the stochastic (two more than the guard
    of [Stoch]). *)
Theorem signals_need_enough_candles (rows : list (candle num)) (st : tally num) :
  ((length rows < 200)%nat -> check_trend (indicators_of rows) st = st) /\
  ((length rows < 15)%nat -> check_rsi (indicators_of rows) st = st) /\
  ((length rows < 35)%nat -> check_macd (indicators_of rows) st = st) /\
  ((length rows < 20)%nat -> check_bb (indicators_of rows) st = st) /\
  ((length rows < 15)%nat -> check_adx (indicators_of rows) st = st) /\
  ((length rows < 19)%nat -> check_stoch (indicators_of rows) st = st) /\
  ((length rows < 20)%nat -> check_cci (indicators_of rows) st = st).
Proof.
  repeat split; intros Hlen.
  - apply check_trend_silent, Hlen.
  - apply check_rsi_silent, Hlen.
  - apply check_macd_silent, Hlen.
  - apply check_bb_silent, Hlen.
  - apply check_adx_silent, Hlen.
  - apply check_stoch_silent, Hlen.
  - apply check_cci_silent, Hlen.
Qed.
End EnoughCandles.

Lemma signals_need_enough_candles_witness :
  check_stoch (indicators_of (firstn 18 (candles_around (scenario_closes ++ scenario_closes))))
              empty_tally = empty_tally /\
  check_trend (indicators_of (candles_around scenario_closes)) empty_tally = empty_tally.
Proof.
  split.
  - apply (@signals_need_enough_candles float _ _
             (firstn 18 (candles_around (scenario_closes ++ scenario_closes))) empty_tally).
    cbn. lia.
  - apply (@signals_need_enough_candles float _ _ (candles_around scenario_closes)
             empty_tally).
    cbn. lia.
Defined.

(** X8.  On a history of fewer than 15 candles (the empty history
    included) no indicator is available: [analyzeOneTF] reports score 0,
    the verdict NEUTRAL / WAIT and no notes. *)
Theorem short_history_is_neutral (rows : list (candle float)) (tf : timeframe) :
  (length rows < 15)%nat ->
  analyzeOneTF rows tf
  = {| tf_label := label tf; tf_close := at_last (map c_close rows);
       tf_score := of_Z 0; tf_verdict := "NEUTRAL / WAIT"; tf_notes := [];
       tf_weight := weight tf |}.
Proof.
  intros Hlen. unfold analyzeOneTF, decideSignal, signal_tally.
  rewrite check_trend_silent, check_rsi_silent, check_macd_silent, check_bb_silent,
    check_adx_silent, check_stoch_silent, check_cci_silent by lia.
  reflexivity.
Qed.

Lemma short_history_is_neutral_witness :
  analyzeOneTF [] {| label := "1h"; interval := 3600; weight := 2 |}
  = {| tf_label := "1h"; tf_close := JUndefined;
       tf_score := of_Z 0; tf_verdict := "NEUTRAL / WAIT"; tf_notes := [];
       tf_weight := 2 |}.
Proof.
  apply (@short_history_is_neutral [] {| label := "1h"; interval := 3600; weight := 2 |}).
  cbn. lia.
Defined.

(** ** Range of the score and number of notes *)

Ltac units_branch := vm_compute; split; discriminate.

Lemma check_bb_units (i : indicator_set float) : (-1 <= units (check_bb i) <= 1)%Z.
Proof.
  unfold units, check_bb. destruct (bb i) as [b |]; [| units_branch].
  cbv zeta.
  match goal with |- context [if ?c then _ else _] => destruct c end; [units_branch |].
  match goal with |- context [if ?c then _ else _] => destruct c end; units_branch.
Qed.

Lemma check_adx_units (i : indicator_set float) : (-1 <= units (check_adx i) <= 1)%Z.
Proof.
  unfold units, check_adx. destruct (adx i) as [a |]; [| units_branch].
  destruct (adx_adx a >? of_Z 25)%js; [| units_branch].
  destruct (toNumber (adx_plusDI a) >? toNumber (adx_minusDI a))%js; units_branch.
Qed.

Lemma check_stoch_units (i : indicator_set float) : (-1 <= units (check_stoch i) <= 1)%Z.
Proof.
  unfold units, check_stoch. destruct (stoch i) as [s |]; [| units_branch].
  destruct (not_null (stoch_prevK s) && not_null (stoch_prevD s)); [| units_branch].
  cbv zeta.
  match goal with |- context [if ?c then _ else _] => destruct c end; [units_branch |].
  match goal with |- context [if ?c then _ else _] => destruct c end; units_branch.
Qed.

Lemma check_cci_units (i : indicator_set float) : (-1 <= units (check_cci i) <= 1)%Z.
Proof.
  unfold units, check_cci.
  destruct (not_null (cci i));
    [ destruct (toNumber (cci i) <? of_Z (-100))%js;
      [| destruct (toNumber (cci i) >? of_Z 100)%js ] |]; units_branch.
Qed.

(** Score and verdict of [decideSignal] for a score of [k] halves, with
    the range of [k]. *)
Lemma decideSignal_tight (i : indicator_set float) :
  exists k, (-10 <= k <= 10)%Z /\
            sig_score (decideSignal i) = half k /\
            sig_verdict (decideSignal i) = verdict_of (half k).
Proof.
  destruct (decideSignal_score i) as (k & Hk & Ht & Hs & Hv).
  assert (Hk' : k = total_units (signal_checks i)).
  { rewrite signal_tally_run, run_checks_half in Ht
      by (apply signal_checks_add || (cbn; lia)).
    assert (Hinj : forall a b, (-14 <= a <= 14)%Z -> (-14 <= b <= 14)%Z ->
                               half a = half b -> a = b).
    { intros a b Ha Hb E.
      pose proof (proj1 (scorer_at_spec Ha)) as Qa.
      pose proof (proj1 (scorer_at_spec Hb)) as Qb.
      rewrite E, Qb in Qa. unfold Qeq in Qa. cbn [Qnum Qden] in Qa. lia. }
    apply Hinj; [exact Hk | | symmetry; exact Ht].
    pose proof (total_units_bound (signal_checks_add i)) as Hb.
    cbn [signal_checks length] in Hb. lia. }
  assert (Hrange : (-10 <= k <= 10)%Z).
  { rewrite Hk'. unfold total_units, signal_checks. cbn [map fold_right].
    pose proof (proj1 (check_trend_adds i)). pose proof (proj1 (check_rsi_adds i)).
    pose proof (proj1 (check_macd_adds i)). pose proof (check_bb_units i).
    pose proof (check_adx_units i). pose proof (check_stoch_units i).
    pose proof (check_cci_units i). lia. }
  exists k. repeat split; assumption || lia.
Qed.

(** X9.  For every argument object, the score that [decideSignal] reports
    is a multiple of 0.5 between -5 and 5. *)
Theorem decideSignal_score_range (i : indicator_set float) :
  exists k, (-10 <= k <= 10)%Z /\
            sig_score (decideSignal i) = half k /\
            (to_Q (sig_score (decideSignal i)) == k # 2)%Q /\
            (-5 <= to_Q (sig_score (decideSignal i)) <= 5)%Q.
Proof.
  destruct (decideSignal_tight i) as (k & Hk & Hs & _).
  exists k. split; [exact Hk |]. split; [exact Hs |].
  assert (Hk14 : (-14 <= k <= 14)%Z) by lia.
  rewrite Hs. pose proof (proj1 (scorer_at_spec Hk14)) as Hq.
  split; [exact Hq |]. rewrite Hq. unfold Qle. cbn [Qnum Qden]. lia.
Qed.

Ltac fired_branch :=
  intros st; unfold fired, units;
  match goal with
  | |- _ = (_ + ?f)%nat => let v := eval vm_compute in f in change f with v
  end;
  cbn [snd plus minus]; rewrite ?length_app; cbn [length]; lia.

Lemma check_trend_fired (i : indicator_set float) :
  forall st, length (snd (check_trend i st)) = (length (snd st) + fired (check_trend i))%nat.
Proof.
  unfold check_trend.
  destruct (truthy (ema50 i) && truthy (ema200 i));
    [ destruct (toNumber (ema50 i) >? toNumber (ema200 i))%js |]; fired_branch.
Qed.

Lemma check_rsi_fired (i : indicator_set float) :
  forall st, length (snd (check_rsi i st)) = (length (snd st) + fired (check_rsi i))%nat.
Proof.
  unfold check_rsi.
  destruct (not_null (rsi i));
    [ destruct (toNumber (rsi i) <? of_Z 30)%js;
      [| destruct (toNumber (rsi i) >? of_Z 70)%js ] |]; fired_branch.
Qed.

Lemma check_macd_fired (i : indicator_set float) :
  forall st, length (snd (check_macd i st)) = (length (snd st) + fired (check_macd i))%nat.
Proof.
  unfold check_macd. destruct (macd i) as [m |]; [| fired_branch].
  cbv zeta.
  match goal with |- context [if ?c then _ else _] => destruct c end; [fired_branch |].
  match goal with |- context [if ?c then _ else _] => destruct c end; fired_branch.
Qed.

Lemma check_bb_fired (i : indicator_set float) :
  forall st, length (snd (check_bb i st)) = (length (snd st) + fired (check_bb i))%nat.
Proof.
  unfold check_bb. destruct (bb i) as [b |]; [| fired_branch].
  cbv zeta.
  match goal with |- context [if ?c then _ else _] => destruct c end; [fired_branch |].
  match goal with |- context [if ?c then _ else _] => destruct c end; fired_branch.
Qed.

Lemma check_adx_fired (i : indicator_set float) :
  forall st, length (snd (check_adx i st)) = (length (snd st) + fired (check_adx i))%nat.
Proof.
  unfold check_adx. destruct (adx i) as [a |]; [| fired_branch].
  destruct (adx_adx a >? of_Z 25)%js; [| fired_branch].
  destruct (toNumber (adx_plusDI a) >? toNumber (adx_minusDI a))%js; fired_branch.
Qed.

Lemma check_stoch_fired (i : indicator_set float) :
  forall st, length (snd (check_stoch i st)) = (length (snd st) + fired (check_stoch i))%nat.
Proof.
  unfold check_stoch. destruct (stoch i) as [s |]; [| fired_branch].
  destruct (not_null (stoch_prevK s) && not_null (stoch_prevD s)); [| fired_branch].
  cbv zeta.
  match goal with |- context [if ?c then _ else _] => destruct c end; [fired_branch |].
  match goal with |- context [if ?c then _ else _] => destruct c end; fired_branch.
Qed.

Lemma check_cci_fired (i : indicator_set float) :
  forall st, length (snd (check_cci i st)) = (length (snd st) + fired (check_cci i))%nat.
Proof.
  unfold check_cci.
  destruct (not_null (cci i));
    [ destruct (toNumber (cci i) <? of_Z (-100))%js;
      [| destruct (toNumber (cci i) >? of_Z 100)%js ] |]; fired_branch.
Qed.

Lemma units_fired (chk : tally float -> tally float) :
  (-2 <= units chk <= 2)%Z -> (Z.abs (units chk) <= 2 * Z.of_nat (fired chk))%Z.
Proof.
  intros Hu. unfold fired. destruct (units chk =? 0)%Z eqn:E.
  - apply Z.eqb_eq in E. lia.
  - lia.
Qed.

Lemma fold_checks_notes (l : list (tally float -> tally float)) (st : tally float) :
  Forall (fun chk => forall st, length (snd (chk st))
                                = (length (snd st) + fired chk)%nat) l ->
  length (snd (fold_left (fun st chk => chk st) l st))
  = (length (snd st) + fold_right Nat.add 0%nat (map fired l))%nat.
Proof.
  intros Hall. revert st. induction Hall as [| chk l Hchk _ IH]; intros st.
  - cbn. lia.
  - cbn [fold_left map fold_right]. rewrite IH, Hchk. lia.
Qed.

Lemma total_units_fired (l : list (tally float -> tally float)) :
  Forall adds l ->
  (Z.abs (total_units l) <= 2 * Z.of_nat (fold_right Nat.add 0%nat (map fired l)))%Z
  /\ (fold_right Nat.add 0%nat (map fired l) <= length l)%nat.
Proof.
  unfold total_units.
  induction 1 as [| chk l [Hu _] _ [IH1 IH2]]; cbn [map fold_right length]; [cbn; lia |].
  pose proof (@units_fired chk Hu). split; [lia |].
  unfold fired at 1. destruct (units chk =? 0)%Z; lia.
Qed.

(** Score, verdict and notes of [decideSignal] in terms of the halves that
    the checks add. *)
Lemma decideSignal_score_range_aux (i : indicator_set float) :
  exists k, (-14 <= k <= 14)%Z /\
            sig_score (decideSignal i) = half k /\
            sig_verdict (decideSignal i) = verdict_of (half k) /\
            (Z.abs k <= 2 * Z.of_nat (length (sig_notes (decideSignal i))))%Z /\
            (length (sig_notes (decideSignal i)) <= 7)%nat.
Proof.
  pose proof (signal_checks_add i) as Hadds.
  pose proof (total_units_bound Hadds) as Hb. cbn [signal_checks length] in Hb.
  destruct (total_units_fired Hadds) as [Hf1 Hf2]. cbn [signal_checks length] in Hf2.
  assert (Hnotes : length (snd (signal_tally i))
                   = fold_right Nat.add 0%nat (map fired (signal_checks i))).
  { rewrite signal_tally_run. unfold run_checks. rewrite fold_checks_notes; [reflexivity |].
    unfold signal_checks.
    repeat (apply Forall_cons;
            [ first [ apply check_trend_fired | apply check_rsi_fired
                    | apply check_macd_fired | apply check_bb_fired
                    | apply check_adx_fired | apply check_stoch_fired
                    | apply check_cci_fired ] |]).
    apply Forall_nil. }
  assert (Hscore : fst (signal_tally i) = half (total_units (signal_checks i))).
  { rewrite signal_tally_run. apply run_checks_half; [exact Hadds | cbn; lia]. }
  exists (total_units (signal_checks i)).
  assert (Hk : (-14 <= total_units (signal_checks i) <= 14)%Z) by lia.
  split; [exact Hk |].
  unfold decideSignal. destruct (signal_tally i) as [score notes].
  cbn [fst snd] in *. subst score. cbn [sig_score sig_verdict sig_notes].
  split; [apply (scorer_at_spec Hk) |]. split; [reflexivity |].
  rewrite Hnotes. split; [exact Hf1 | lia].
Qed.

(** X10.  [decideSignal] pushes one note for each check that changes the
    score and none for the others: there are at most seven notes, the
    score is at most as many units as there are notes, and a verdict other
    than NEUTRAL / WAIT comes with at least two notes. *)
Theorem decideSignal_notes (i : indicator_set float) :
  let s := decideSignal i in
  (length (sig_notes s) <= 7)%nat /\
  (Qabs (to_Q (sig_score s)) <= inject_Z (Z.of_nat (length (sig_notes s))))%Q /\
  (sig_verdict s <> "NEUTRAL / WAIT"%string -> (2 <= length (sig_notes s))%nat).
Proof.
  cbv zeta.
  destruct (decideSignal_score_range_aux i) as (k & Hk14 & Hs & Hv & Hn & Hle).
  rewrite Hs, Hv.
  destruct (scorer_at_spec Hk14) as (Hq & Hverdict & _).
  split; [exact Hle |]. split.
  - rewrite Hq. unfold Qabs, Qle, inject_Z. cbn [Qnum Qden]. lia.
  - rewrite Hverdict. intros Hne.
    destruct (3 <=? k)%Z eqn:E1; [lia |].
    destruct (k <=? -3)%Z eqn:E2; [lia |].
    contradiction Hne. reflexivity.
Qed.

Lemma decideSignal_notes_witness :
  (length (sig_notes (decideSignal long_indicators)) <= 7)%nat /\
  (2 <= length (sig_notes (decideSignal long_indicators)))%nat.
Proof.
  pose proof (decideSignal_notes long_indicators) as (Hle & _ & Hmin).
  split; [exact Hle |]. apply Hmin. vm_compute. discriminate.
Defined.

(** ** Further properties of the aggregator *)

Lemma analyzeOneTF_tight (rows : list (candle float)) (tf : timeframe) :
  exists k, (-10 <= k <= 10)%Z /\ tf_score (analyzeOneTF rows tf) = half k /\
            tf_verdict (analyzeOneTF rows tf) = verdict_of (half k).
Proof. apply decideSignal_tight. Qed.

(** The three results of a completed loop, with their verdicts. *)
Lemma collect_verdicts (fetch : Z -> option (list (candle float)))
      (perTF : list (tf_result float)) :
  collect fetch TIMEFRAMES = Some perTF ->
  exists k1 k2 k3,
    (-10 <= k1 <= 10)%Z /\ (-10 <= k2 <= 10)%Z /\ (-10 <= k3 <= 10)%Z /\
    weightedScore perTF = ws_at k1 k2 k3 /\
    spec_weighted_score perTF = exact_at k1 k2 k3 /\
    map (fun t => tf_verdict t) perTF
    = [verdict_of (half k1); verdict_of (half k2); verdict_of (half k3)].
Proof.
  unfold TIMEFRAMES. cbn [collect interval].
  destruct (fetch 900%Z) as [rows1 |]; [| discriminate].
  destruct (fetch 3600%Z) as [rows2 |]; [| discriminate].
  destruct (fetch 86400%Z) as [rows3 |]; [| discriminate].
  intros E. injection E as <-.
  set (tf1 := {| label := "15m"; interval := 900; weight := 1 |}).
  set (tf2 := {| label := "1h"; interval := 3600; weight := 2 |}).
  set (tf3 := {| label := "1d"; interval := 86400; weight := 3 |}).
  destruct (analyzeOneTF_tight rows1 tf1) as (k1 & Hk1 & E1 & V1).
  destruct (analyzeOneTF_tight rows2 tf2) as (k2 & Hk2 & E2 & V2).
  destruct (analyzeOneTF_tight rows3 tf3) as (k3 & Hk3 & E3 & V3).
  exists k1, k2, k3. repeat (split; [assumption |]).
  unfold weightedScore, spec_weighted_score, ws_at, exact_at.
  cbn [fold_left fold_right map]. rewrite E1, E2, E3, V1, V2, V3.
  repeat split; reflexivity.
Qed.

Lemma verdict_long (k : Z) :
  (-14 <= k <= 14)%Z -> verdict_of (half k) = "LEAN LONG"%string -> (3 <= k)%Z.
Proof.
  intros Hk. rewrite (proj1 (proj2 (scorer_at_spec Hk))).
  destruct (3 <=? k)%Z eqn:E; [lia |].
  destruct (k <=? -3)%Z; discriminate.
Qed.

Lemma verdict_short (k : Z) :
  (-14 <= k <= 14)%Z -> verdict_of (half k) = "LEAN SHORT"%string -> (k <= -3)%Z.
Proof.
  intros Hk. rewrite (proj1 (proj2 (scorer_at_spec Hk))).
  destruct (3 <=? k)%Z eqn:E; [discriminate |].
  destruct (k <=? -3)%Z eqn:E'; [lia | discriminate].
Qed.

(** X11.  When the three timeframes all give LEAN LONG, the global
    verdict is LEAN LONG, and likewise for LEAN SHORT. *)
Theorem unanimous_timeframes_decide
        (fetch : Z -> option (list (candle float))) (livePrices : prices float)
        (now : Z) (assetId : float) (r : analysis float) (c : pending float)
        (perTF : list (tf_result float)) :
  analyzeAsset fetch livePrices now assetId = Some (r, c) ->
  collect fetch TIMEFRAMES = Some perTF ->
  (Forall (fun t => tf_verdict t = "LEAN LONG"%string) perTF ->
   a_verdict r = "GLOBAL: LEAN LONG"%string) /\
  (Forall (fun t => tf_verdict t = "LEAN SHORT"%string) perTF ->
   a_verdict r = "GLOBAL: LEAN SHORT"%string).
Proof.
  intros Hrun Hcollect.
  assert (Hv : a_verdict r = globalVerdict (weightedScore perTF)).
  { unfold analyzeAsset in Hrun. rewrite Hcollect in Hrun.
    injection Hrun as <- _. reflexivity. }
  destruct (collect_verdicts _ Hcollect)
    as (k1 & k2 & k3 & H1 & H2 & H3 & Hws & _ & Hverdicts).
  assert (H1' : (-14 <= k1 <= 14)%Z) by lia.
  assert (H2' : (-14 <= k2 <= 14)%Z) by lia.
  assert (H3' : (-14 <= k3 <= 14)%Z) by lia.
  destruct (aggregate_at_spec H1' H2' H3') as (_ & _ & Hglobal & Hlong & Hshort & _).
  pose proof (exact_at_sum H1' H2' H3') as Hex.
  rewrite Hv, Hws, Hglobal.
  assert (Hall : forall v, Forall (fun t => tf_verdict t = v) perTF ->
                           verdict_of (half k1) = v /\ verdict_of (half k2) = v
                           /\ verdict_of (half k3) = v).
  { intros v Hall. rewrite Forall_forall in Hall.
    assert (Hin : forall x, In x (map (fun t => tf_verdict t) perTF) -> x = v).
    { intros x Hx. apply in_map_iff in Hx. destruct Hx as (t & <- & Ht).
      apply Hall, Ht. }
    rewrite Hverdicts in Hin.
    repeat split; apply Hin; cbn; auto. }
  split; intros Hunanimous; destruct (Hall _ Hunanimous) as (V1 & V2 & V3).
  - apply verdict_long in V1, V2, V3; try assumption.
    assert (Hge : (1 <= to_Q (ws_at k1 k2 k3))%Q).
    { apply Hlong. rewrite Hex. unfold Qle. cbn [Qnum Qden]. lia. }
    apply Qle_bool_iff in Hge. rewrite Hge. reflexivity.
  - apply verdict_short in V1, V2, V3; try assumption.
    assert (Hle : (to_Q (ws_at k1 k2 k3) <= -1)%Q).
    { apply Hshort. rewrite Hex. unfold Qle. cbn [Qnum Qden]. lia. }
    assert (Hnot : Qle_bool 1 (to_Q (ws_at k1 k2 k3)) = false).
    { destruct (Qle_bool 1 (to_Q (ws_at k1 k2 k3))) eqn:E; [| reflexivity].
      apply Qle_bool_iff in E. lra. }
    apply Qle_bool_iff in Hle. rewrite Hnot, Hle. reflexivity.
Qed.

Lemma unanimous_timeframes_decide_witness :
  exists r c perTF,
    analyzeAsset falling_fetch sample_prices 0 (of_Z 1) = Some (r, c) /\
    collect falling_fetch TIMEFRAMES = Some perTF /\
    Forall (fun t => tf_verdict t = "LEAN LONG"%string) perTF /\
    a_verdict r = "GLOBAL: LEAN LONG"%string.
Proof.
  eexists. eexists. eexists.
  split; [vm_compute; reflexivity |].
  split; [vm_compute; reflexivity |].
  split; [repeat constructor |].
  refine (proj1 (@unanimous_timeframes_decide falling_fetch sample_prices 0%Z (of_Z 1)
                   _ _ _ _ _) _).
  - vm_compute. reflexivity.
  - vm_compute. reflexivity.
  - repeat constructor.
Defined.




Section AnalysisFacts.
Context {num : Type} `{JSNumber num} `{JSSqrt num}.

(** X13.  [analyzeAsset] gives up exactly when the fetch of one of the
    three timeframes fails.  When it completes, the record lists the
    timeframes 15m, 1h and 1d in this order and carries the asset id and
    the cached price of that moment ([null] when the cache has none), and
    the timer holds the same record and the same price. *)
Theorem analyzeAsset_completes_iff_fetches_do
        (fetch : Z -> option (list (candle num))) (livePrices : prices num)
        (now : Z) (assetId : num) :
  (analyzeAsset fetch livePrices now assetId = None <->
   exists tf, In tf TIMEFRAMES /\ fetch (interval tf) = None) /\
  (forall r c,
      analyzeAsset fetch livePrices now assetId = Some (r, c) ->
      map (fun x => fst (fst x)) (a_perTF r) = ["15m"; "1h"; "1d"]%string /\
      a_assetId r = assetId /\
      a_spotAtAnalysis r = match lookup livePrices assetId with
                           | Some l => JNum (price l)
                           | None => JNull
                           end /\
      p_record c = r /\ p_spot c = a_spotAtAnalysis r /\ p_assetId c = assetId).
Proof.
  unfold analyzeAsset, TIMEFRAMES. cbn [collect interval].
  destruct (fetch 900%Z) as [rows1 |] eqn:E1;
    [destruct (fetch 3600%Z) as [rows2 |] eqn:E2;
     [destruct (fetch 86400%Z) as [rows3 |] eqn:E3 |] |].
  - split.
    + split; [discriminate |].
      intros (tf & [<- | [<- | [<- | []]]] & F); cbn [interval] in F; congruence.
    + intros r c E. injection E as <- <-. repeat split; reflexivity.
  - split; [| discriminate]. split; [| reflexivity]. intros _.
    eexists. split; [right; right; left; reflexivity | exact E3].
  - split; [| discriminate]. split; [| reflexivity]. intros _.
    eexists. split; [right; left; reflexivity | exact E2].
  - split; [| discriminate]. split; [| reflexivity]. intros _.
    eexists. split; [left; reflexivity | exact E1].
Qed.
End AnalysisFacts.

Lemma analyzeAsset_completes_iff_fetches_do_witness :
  analyzeAsset (fun interval => if (interval =? 3600)%Z then None else sample_fetch interval)
               sample_prices 0 (of_Z 1) = None.
Proof.
  apply (proj1 (@analyzeAsset_completes_iff_fetches_do float _ _
                  (fun interval => if (interval =? 3600)%Z then None
                                   else sample_fetch interval)
                  sample_prices 0%Z (of_Z 1))).
  exists {| label := "1h"; interval := 3600; weight := 2 |}.
  split; [right; left; reflexivity | reflexivity].
Defined.

(** ** Further properties of the live price cache *)

Section CacheInvariants.
Context {num : Type} `{JSNumber num}.

Lemma on_entry_cases (now : num) (m : prices num) (e : string * payload num) :
  on_entry now m e = m \/
  exists id t, on_entry now m e = store m id t /\
               payload_id (snd e) = JNum id /\ tick_of now e = Some t /\
               isFinite id = true /\ isFinite (price t) = true.
Proof.
  destruct e as [pairKey pl]. unfold on_entry, tick_of. cbn [snd fst].
  destruct (payload_item pl) as [item |]; [| left; reflexivity].
  destruct (payload_id pl) as [| | id]; try (left; reflexivity).
  destruct (isFinite id && isFinite (currentPrice item)) eqn:E; [| left; reflexivity].
  apply andb_true_iff in E. destruct E as [Hid Hprice].
  right. eexists _, _. repeat split; try reflexivity; assumption.
Qed.

Lemma on_entry_other (now : num) (m : prices num) (id : num) (e : string * payload num) :
  match payload_id (snd e) with
  | JNum id' => (id === id')%js = false
  | _ => True
  end ->
  lookup (on_entry now m e) id = lookup m id.
Proof.
  intros Hother.
  destruct (on_entry_cases now m e) as [-> | (id' & t & -> & Hid & _)]; [reflexivity |].
  rewrite Hid in Hother. unfold lookup, store. rewrite Hother. reflexivity.
Qed.

(** X14.  A message that the handler rejects, and a message none of whose
    entries carries the id of an asset, leave the cached tick of that asset
    as it was. *)
Theorem message_for_other_assets_keeps_tick
        (now : num) (m : prices num) (id : num)
        (msg : option (list (string * payload num))) :
  match msg with
  | None => True
  | Some entries =>
      Forall (fun e => match payload_id (snd e) with
                       | JNum id' => (id === id')%js = false
                       | _ => True
                       end) entries
  end ->
  lookup (on_message now m msg) id = lookup m id.
Proof.
  destruct msg as [entries |]; [| reflexivity].
  cbn [on_message]. intros Hall. revert m.
  induction Hall as [| e entries He _ IH]; intros m; [reflexivity |].
  cbn [fold_left]. rewrite IH. apply on_entry_other, He.
Qed.

(** X15.  Handling a message never removes an asset from the cache: an
    asset that has a tick before has one after. *)
Theorem cache_never_forgets
        (now : num) (m : prices num) (id : num) (t : tick num)
        (msg : option (list (string * payload num))) :
  lookup m id = Some t -> exists t', lookup (on_message now m msg) id = Some t'.
Proof.
  destruct msg as [entries |]; [| intros Ht; exists t; exact Ht].
  cbn [on_message]. revert m t.
  induction entries as [| e entries IH]; intros m t Ht; [exists t; exact Ht |].
  cbn [fold_left].
  destruct (on_entry_cases now m e) as [-> | (id' & t' & -> & _)].
  - apply (IH m t Ht).
  - unfold lookup, store in *.
    destruct (id === id')%js eqn:E.
    + apply (IH _ t'). rewrite E. reflexivity.
    + apply (IH _ t). rewrite E. exact Ht.
Qed.

Lemma on_message_finite (now : num) (m : prices num)
      (msg : option (list (string * payload num))) :
  (forall id t, lookup m id = Some t -> isFinite (price t) = true) ->
  forall id t, lookup (on_message now m msg) id = Some t -> isFinite (price t) = true.
Proof.
  destruct msg as [entries |]; [| intros Hm; exact Hm].
  cbn [on_message]. revert m.
  induction entries as [| e entries IH]; intros m Hm; [exact Hm |].
  cbn [fold_left]. apply IH.
  destruct (on_entry_cases now m e) as [-> | (id' & t' & -> & _ & _ & _ & Hfin)];
    [exact Hm |].
  intros id t. unfold lookup, store.
  destruct (id === id')%js.
  - intros E. injection E as <-. exact Hfin.
  - apply Hm.
Qed.
End CacheInvariants.

Lemma message_for_other_assets_keeps_tick_witness :
  lookup (on_message (of_Z 0) sample_prices (Some [snd tick_late])) (of_Z 5500)
  = lookup sample_prices (of_Z 5500).
Proof.
  apply (@message_for_other_assets_keeps_tick float _ (of_Z 0) sample_prices (of_Z 5500)
           (Some [snd tick_late])).
  repeat constructor.
Defined.

Lemma cache_never_forgets_witness :
  exists t', lookup (on_message (of_Z 0) sample_prices (Some [snd tick_late])) (of_Z 1)
             = Some t'.
Proof.
  apply (@cache_never_forgets float _ (of_Z 0) sample_prices (of_Z 1)
           {| price := of_Z 100; ts := of_Z 1000; pair := "BTC/USD" |}
           (Some [snd tick_late])).
  reflexivity.
Defined.

Section WorldInvariants.
Context {num : Type} `{JSNumber num} `{JSSqrt num}.

(** X16.  In every state the process can reach, every cached price is a
    finite number; so the spot price of a record is [null] or finite. *)
Theorem cached_prices_are_finite (w : world num) :
  reachable w ->
  forall id t, lookup (w_prices w) id = Some t -> isFinite (price t) = true.
Proof.
  induction 1 as [| w w' _ IH Hstep].
  - intros id t F. discriminate.
  - destruct Hstep as [w now msg | w fetch now assetId r c Hrun | w now2 before k c after Ht];
      cbn [w_prices]; try exact IH.
    apply on_message_finite, IH.
Qed.

(** X17.  In every state the process can reach, each analysis recorded so
    far has either its timer pending or its outcome recorded, never both
    and never neither: the serial numbers of the pending timers and of the
    outcomes are together those of the analyses. *)
Theorem every_analysis_is_pending_or_checked (w : world num) :
  reachable w ->
  Permutation (map fst (w_timers w) ++ outcome_ids (w_log w)) (analysis_ids (w_log w))
  /\ analysis_ids (w_log w) = seq 0 (w_next w).
Proof.
  induction 1 as [| w w' _ [IHp IHs] Hstep].
  - split; [apply perm_nil | reflexivity].
  - destruct Hstep as [w now msg | w fetch now assetId r c Hrun | w now2 before k c after Ht];
      cbn [w_log w_timers w_next].
    + split; assumption.
    + rewrite analysis_ids_app, outcome_ids_app, map_app. cbn [map fst].
      split.
      * change (outcome_ids [AppendAnalysis (w_next w) r]) with (@nil nat).
        change (analysis_ids [AppendAnalysis (w_next w) r]) with [w_next w].
        rewrite app_nil_r, <- app_assoc.
        apply Permutation_trans with (w_next w :: map fst (w_timers w) ++ outcome_ids (w_log w)).
        -- apply Permutation_sym, Permutation_middle.
        -- apply Permutation_trans with (w_next w :: analysis_ids (w_log w)).
           ++ apply perm_skip, IHp.
           ++ apply Permutation_cons_append.
      * rewrite IHs, seq_S. reflexivity.
    + rewrite analysis_ids_app, outcome_ids_app.
      change (analysis_ids [AppendOutcome k (check_outcome c (w_prices w) now2)])
        with (@nil nat).
      change (outcome_ids [AppendOutcome k (check_outcome c (w_prices w) now2)])
        with [k].
      rewrite app_nil_r. split; [| exact IHs].
      rewrite Ht in IHp. rewrite map_app in *. cbn [map fst] in IHp.
      apply Permutation_trans with ((map fst before ++ k :: map fst after)
                                      ++ outcome_ids (w_log w)); [| exact IHp].
      rewrite <- !app_assoc. apply Permutation_app_head.
      cbn [app]. rewrite app_assoc.
      apply Permutation_sym, Permutation_cons_append.
Qed.
End WorldInvariants.

Lemma ticked_world_reachable : reachable ticked_world.
Proof.
  apply reach_step with (w := start); [apply reach_start |].
  exact (step_message start (of_Z 0) (Some [snd tick_late])).
Qed.

Lemma cached_prices_are_finite_witness :
  isFinite (num := float)
           (price {| price := of_Z 10; ts := of_Z 2000; pair := "BTC/USD" |}) = true.
Proof.
  apply (@cached_prices_are_finite float _ _ ticked_world ticked_world_reachable (of_Z 1)).
  reflexivity.
Defined.

Lemma every_analysis_is_pending_or_checked_witness :
  Permutation (map fst (w_timers sample_world) ++ outcome_ids (w_log sample_world))
              (analysis_ids (w_log sample_world))
  /\ analysis_ids (w_log sample_world) = seq 0 (w_next sample_world).
Proof.
  apply (@every_analysis_is_pending_or_checked float _ _ sample_world).
  exact sample_world_reachable.
Defined.

(** ** The outcome when the price has not moved *)

Lemma float_neg_not_pos (w : float) : (w <? of_Z 0)%js = true -> (w >? of_Z 0)%js = false.
Proof.
  cbn [nltb float_number]. rewrite !FloatAxioms.ltb_spec.
  replace (Prim2SF (of_Z 0)) with (S754_zero false) by (vm_compute; reflexivity).
  unfold SFltb. destruct (Prim2SF w) as [s | s | | s m e]; cbn; try discriminate;
    destruct s; cbn; discriminate || reflexivity.
Qed.

(** X18.  When the price at check time equals the price at analysis time,
    the outcome counts a long prediction (recorded score above 0) as wrong
    and a short prediction (recorded score below 0) as right. *)
Theorem unchanged_price_favours_short
        (c : pending float) (livePrices2 : prices float) (now2 : Z)
        (spot : float) (later : tick float) :
  p_spot c = JNum spot ->
  lookup livePrices2 (p_assetId c) = Some later ->
  (price later === spot)%js = true ->
  ((a_weightedScore (p_record c) >? of_Z 0)%js = true ->
   o_wasCorrect (check_outcome c livePrices2 now2) = Some false) /\
  ((a_weightedScore (p_record c) <? of_Z 0)%js = true ->
   o_wasCorrect (check_outcome c livePrices2 now2) = Some true).
Proof.
  intros Hspot Hlater Hsame. unfold check_outcome. cbn [o_wasCorrect].
  rewrite Hspot, Hlater. cbn [not_null andb toNumber].
  rewrite (float_eq_not_gt Hsame). unfold Math_sign.
  split; intros Hsign.
  - rewrite Hsign. reflexivity.
  - rewrite (float_neg_not_pos Hsign), Hsign. reflexivity.
Qed.

Lemma unchanged_price_favours_short_witness :
  exists r c,
    analyzeAsset sample_fetch sample_prices 0 (of_Z 1) = Some (r, c) /\
    o_wasCorrect (check_outcome c sample_prices 3600000) = Some true.
Proof.
  eexists. eexists. split; [vm_compute; reflexivity |].
  refine (proj2 (@unchanged_price_favours_short _ sample_prices 3600000%Z (of_Z 100)
                   {| price := of_Z 100; ts := of_Z 1000; pair := "BTC/USD" |} _ _ _) _);
    reflexivity.
Defined.

(** ** The pass over the assets *)

Section SchedulerFacts.
Context {num : Type} `{JSNumber num} `{JSSqrt num}.

Lemma analyzeAsset_fetch_ok (fetch : Z -> Z -> option (list (candle num)))
      (livePrices : prices num) (now : Z) (id : Z) :
  (fetch_ok fetch id = true /\
   exists r c, analyzeAsset (fetch id) livePrices now (of_Z id) = Some (r, c)
               /\ a_assetId r = of_Z id)
  \/ (fetch_ok fetch id = false /\
      analyzeAsset (fetch id) livePrices now (of_Z id) = None).
Proof.
  unfold fetch_ok, analyzeAsset, TIMEFRAMES. cbn [collect interval forallb].
  destruct (fetch id 900%Z); [| right; split; reflexivity].
  destruct (fetch id 3600%Z); [| right; split; reflexivity].
  destruct (fetch id 86400%Z); [| right; split; reflexivity].
  left. split; [reflexivity |]. eexists _, _. split; reflexivity.
Qed.

Lemma analysed_assets_app (l l' : list (appended num)) :
  analysed_assets (l ++ l') = analysed_assets l ++ analysed_assets l'.
Proof. apply flat_map_app. Qed.

Lemma run_assets (fetch : Z -> Z -> option (list (candle num))) (clock : Z -> Z)
      (ids : list Z) (w : world num) :
  let w' := fold_left (analyze_in fetch clock) ids w in
  analysed_assets (w_log w')
  = analysed_assets (w_log w) ++ map of_Z (filter (fetch_ok fetch) ids) /\
  length (w_timers w') = (length (w_timers w) + length (filter (fetch_ok fetch) ids))%nat /\
  w_prices w' = w_prices w /\
  (reachable w -> reachable w').
Proof.
  cbv zeta. revert w. induction ids as [| id ids IH]; intros w.
  - cbn. rewrite app_nil_r. repeat split; auto.
  - cbn [fold_left filter].
    destruct (analyzeAsset_fetch_ok fetch (w_prices w) (clock id) id)
      as [(Hok & r & c & Hrun & Hid) | (Hok & Hrun)]; rewrite Hok.
    + set (w1 := {| w_prices := w_prices w;
                    w_timers := w_timers w ++ [(w_next w, c)];
                    w_log := w_log w ++ [AppendAnalysis (w_next w) r];
                    w_next := S (w_next w) |}).
      assert (Hstep : analyze_in fetch clock w id = w1)
        by (unfold analyze_in; rewrite Hrun; reflexivity).
      rewrite Hstep. destruct (IH w1) as (Hlog & Htimers & Hprices & Hreach).
      rewrite Hlog, Htimers, Hprices. unfold w1. cbn [w_log w_timers w_prices map length].
      rewrite analysed_assets_app, length_app.
      change (analysed_assets [AppendAnalysis (w_next w) r]) with [a_assetId r].
      rewrite Hid, <- app_assoc. cbn [app length].
      repeat split; try reflexivity; try lia.
      intros Hw. apply Hreach. apply reach_step with (w := w); [exact Hw |].
      apply step_analyze with (fetch := fetch id) (now := clock id) (assetId := of_Z id).
      exact Hrun.
    + assert (Hstep : analyze_in fetch clock w id = w)
        by (unfold analyze_in; rewrite Hrun; reflexivity).
      rewrite Hstep. apply IH.
Qed.

(** X19.  A pass of [runAllAssets] analyses, in the order of the list,
    exactly the assets whose three fetches all succeed: a failure skips
    that asset only.  It sets one timer for each analysis, leaves the
    cache alone, and stays within the states the process can reach. *)
Theorem runAllAssets_skips_only_failures
        (fetch : Z -> Z -> option (list (candle num))) (clock : Z -> Z) (w : world num) :
  analysed_assets (w_log (runAllAssets fetch clock w))
  = analysed_assets (w_log w) ++ map of_Z (filter (fetch_ok fetch) ASSET_IDS) /\
  length (w_timers (runAllAssets fetch clock w))
  = (length (w_timers w) + length (filter (fetch_ok fetch) ASSET_IDS))%nat /\
  w_prices (runAllAssets fetch clock w) = w_prices w /\
  (reachable w -> reachable (runAllAssets fetch clock w)).
Proof. apply (run_assets fetch clock ASSET_IDS w). Qed.
End SchedulerFacts.

Lemma runAllAssets_skips_only_failures_witness :
  analysed_assets (w_log (runAllAssets flaky_fetch (fun _ => 0%Z) start))
  = map of_Z [0; 1; 5000; 5002]%Z
  /\ reachable (runAllAssets flaky_fetch (fun _ => 0%Z) start).
Proof.
  pose proof (@runAllAssets_skips_only_failures float _ _ flaky_fetch (fun _ => 0%Z) start)
    as (Hlog & _ & _ & Hreach).
  split; [rewrite Hlog; reflexivity | apply Hreach, reach_start].
Defined.

(** ** The clock of the first pass *)

(** X20.  For a clock value below 2^52, [msToNextHour] is the time left
    to the next full hour: it lies in [0, 3600000), it brings the clock to
    a multiple of 3600000, and it is 0 on a full hour.  The first pass
    starts after at most 15 s. *)
Theorem msToNextHour_reaches_the_hour (now : Z) :
  (0 <= now < 2 ^ 52)%Z ->
  (0 <= msToNextHour now < 3600000)%Z /\
  ((now + msToNextHour now) mod 3600000 = 0)%Z /\
  ((now mod 3600000 = 0)%Z -> msToNextHour now = 0%Z) /\
  (0 <= first_pass_delay now <= 15000)%Z /\
  (first_pass_delay now <= msToNextHour now)%Z.
Proof.
  intros _. unfold first_pass_delay, msToNextHour.
  pose proof (Z.div_mod (- now) 3600000 ltac:(lia)) as Hdm.
  pose proof (Z.mod_pos_bound (- now) 3600000 ltac:(lia)) as Hb.
  assert (Hr : (- (- now / 3600000) * 3600000 - now = (- now) mod 3600000)%Z) by lia.
  rewrite Hr. repeat split; try lia.
  - replace (now + (- now) mod 3600000)%Z with (- (- now / 3600000) * 3600000)%Z by lia.
    apply Z.mod_mul. lia.
  - intros Hnow.
    pose proof (Z.div_mod now 3600000 ltac:(lia)) as Hn. rewrite Hnow in Hn.
    replace (- now)%Z with ((- (now / 3600000)) * 3600000)%Z by lia.
    apply Z.mod_mul. lia.
Qed.

Lemma msToNextHour_reaches_the_hour_witness :
  (0 <= msToNextHour 1700000000000 < 3600000)%Z /\
  ((1700000000000 + msToNextHour 1700000000000) mod 3600000 = 0)%Z /\
  ((1700000000000 mod 3600000 = 0)%Z -> msToNextHour 1700000000000 = 0%Z) /\
  (0 <= first_pass_delay 1700000000000 <= 15000)%Z /\
  (first_pass_delay 1700000000000 <= msToNextHour 1700000000000)%Z.
Proof.
  apply (@msToNextHour_reaches_the_hour 1700000000000%Z). lia.
Defined.

(** ** The feed connection *)

(** X21.  At every moment there is exactly one thing keeping the feed
    alive: an open socket or a pending reconnection timer, never both and
    never neither; every close is followed by one more call of
    [startWss], without limit. *)
Theorem feed_has_one_socket_or_one_timer (f : feed) :
  feed_reachable f ->
  (feed_open f + feed_timers f = 1)%nat /\ (1 <= feed_started f)%nat /\
  exists f', feed_step f f' /\ (feed_open f' + feed_timers f' = 1)%nat.
Proof.
  intros Hreach.
  assert (Hinv : (feed_open f + feed_timers f = 1)%nat /\ (1 <= feed_started f)%nat).
  { induction Hreach as [| f f' _ [IH1 IH2] Hstep]; [cbn; lia |].
    destruct Hstep; cbn [feed_open feed_timers feed_started]; lia. }
  destruct Hinv as [H1 H2]. split; [exact H1 |]. split; [exact H2 |].
  destruct (feed_open f) as [| n] eqn:E.
  - eexists. split; [apply feed_retry; lia |].
    cbn [feed_open feed_timers]. lia.
  - eexists. split; [apply feed_close; lia |].
    cbn [feed_open feed_timers]. lia.
Qed.

Lemma feed_has_one_socket_or_one_timer_witness :
  (feed_open {| feed_open := 0; feed_timers := 1; feed_started := 1 |}
   + feed_timers {| feed_open := 0; feed_timers := 1; feed_started := 1 |} = 1)%nat.
Proof.
  apply (@feed_has_one_socket_or_one_timer
           {| feed_open := 0; feed_timers := 1; feed_started := 1 |}).
  apply feed_reach_step with (f := feed_start); [apply feed_reach_start |].
  exact (feed_close feed_start (le_n 1)).
Defined.

(** ** The address of the candle history *)






